(** * honk-overlay: the horn entity and the animation loop

    A shallow embedding of [src/horn.js] (class [Horn]) and of the page
    script that drives it (the [window.onload] closure with [draw] and
    [handleMessage]).

    Modelling conventions.
    - A JavaScript Number is a real number: arithmetic is exact, and
      rounding, NaN and the infinities of IEEE doubles are outside the model.
    - [Math.random()] and [performance.now()] are oracles: each call returns
      the next value of a sequence carried by the world.
    - A method that may throw is a computation in a state-and-exception
      monad; the world reached when an exception is thrown is kept, as
      mutations made by JavaScript code before a throw are.
    - The browser interfaces the code calls (the 2D context, image elements,
      the audio context, requestAnimationFrame) are modelled after the HTML
      standard, only as far as the code uses them.
    - The [options] of the constructor are as documented: left out, or an
      object whose properties are numbers or absent.  [null] is kept apart,
      as the one value outside that the model names; the theorems about the
      constructor assume it away.
    - A height computed from an image of width 0 is NaN or infinite in the
      code, and [drawImage] returns at once on such an argument; here it is a
      real number.  No horn the page builds has both a finite size and a
      broken image, so what is proved of a tick does not rest on [drawImage]
      throwing: a throwing [draw] is a matter of the class, used with a
      height of the caller's.
    - The message of a TypeError the engine throws is the engine's; the
      statements use only that it is a TypeError. *)

From Stdlib Require Import Reals Lra Lia List String Bool NArith Floats.
Import ListNotations.

Open Scope R_scope.

(* ================================================================== *)
(** ** Numbers and values *)

(** The comparison [a < b] as JavaScript evaluates it, to a boolean. *)
Definition Rltb (a b : R) : bool := if Rlt_dec a b then true else false.

(** [Number(b)]: the coercion applied to a boolean operand of [+] or [*]. *)
Definition bool_to_number (b : bool) : R := if b then 1 else 0.

(** The value of an unsigned-long DOM attribute as a Number. *)
Definition N_to_number (n : N) : R := INR (N.to_nat n).

(** The state of the image data behind an [HTMLImageElement], as the
    browser reports it while the running callback lasts. *)
Inductive ImageStatus :=
| ImageUnavailable   (* nothing fetched or decoded yet *)
| ImageAvailable     (* completely available *)
| ImageBroken.       (* the fetch or the decoding failed *)

Record Image := mkImage {
  img_width : N;
  img_height : N;
  img_status : ImageStatus
}.

(** The values that reach the constructor's [context] and [image]
    parameters.  There is one 2D rendering context, that of the page canvas;
    [JSCanvasContext] is the reference to it. *)
Inductive JSValue :=
| JSUndefined
| JSNull
| JSBoolean (b : bool)
| JSNumber (r : R)
| JSString (s : string)
| JSCanvasContext
| JSImage (img : Image)
| JSPlainObject.

Definition typeof (v : JSValue) : string :=
  match v with
  | JSUndefined => "undefined"
  | JSBoolean _ => "boolean"
  | JSNumber _ => "number"
  | JSString _ => "string"
  | JSNull | JSCanvasContext | JSImage _ | JSPlainObject => "object"
  end.

(** [v instanceof CanvasRenderingContext2D] and [v instanceof HTMLImageElement]. *)
Definition instanceof_CanvasRenderingContext2D (v : JSValue) : bool :=
  match v with JSCanvasContext => true | _ => false end.

Definition instanceof_HTMLImageElement (v : JSValue) : bool :=
  match v with JSImage _ => true | _ => false end.

Inductive JSError :=
| TypeError (message : string)
| InvalidStateError.

Definition is_TypeError (e : JSError) : bool :=
  match e with TypeError _ => true | InvalidStateError => false end.

(* ================================================================== *)
(** ** The horn object *)

Record Vec2 := mkVec2 { x : R; y : R }.

(** The reference a horn keeps to the rendering context it draws to. *)
Inductive ContextRef := canvasContextRef.

Record Horn := mkHorn {
  context : ContextRef;
  image : Image;
  width : R;
  height : R;
  createdAt : R;
  timeToLive : R;
  position : Vec2;
  velocity : Vec2;
  rotationSpeed : R;
  rotation : R
}.

(** The [options] argument of the constructor: left out (or [undefined]),
    [null], or an object whose five properties are numbers or absent. *)
Record HornOptions := mkHornOptions {
  opt_width : option R;
  opt_height : option R;
  opt_minTTL : option R;
  opt_maxTTL : option R;
  opt_maxRotationSpeed : option R
}.

Inductive OptionsArg :=
| OptionsOmitted
| OptionsNull
| OptionsObject (o : HornOptions).

Definition no_options : HornOptions := mkHornOptions None None None None None.

(** [const { p = d } = options]: the default applies when the property is absent. *)
Definition or_default (p : option R) (d : R) : R :=
  match p with Some v => v | None => d end.

(* ================================================================== *)
(** ** The rendering surface *)

(** The current transformation matrix of a 2D context,
    [[a c e] [b d f] [0 0 1]]. *)
Record Matrix := mkMatrix { ma : R; mb : R; mc : R; md : R; me : R; mf : R }.

Definition identity_matrix : Matrix := mkMatrix 1 0 0 1 0 0.

Definition translate_matrix (m : Matrix) (tx ty : R) : Matrix :=
  mkMatrix (ma m) (mb m) (mc m) (md m)
           (ma m * tx + mc m * ty + me m) (mb m * tx + md m * ty + mf m).

Definition rotate_matrix (m : Matrix) (angle : R) : Matrix :=
  mkMatrix (ma m * cos angle + mc m * sin angle)
           (mb m * cos angle + md m * sin angle)
           (mc m * cos angle - ma m * sin angle)
           (md m * cos angle - mb m * sin angle)
           (me m) (mf m).

(** What has been painted, in order; each entry keeps the matrix in force. *)
Inductive CanvasOp :=
| OpResetBitmap
| OpClearRect (rx ry rw rh : R) (m : Matrix)
| OpDrawImage (img : Image) (dx dy dw dh : R) (m : Matrix).

Record Context2D := mkContext2D {
  canvas_width : N;
  canvas_height : N;
  client_width : N;
  client_height : N;
  transform : Matrix;
  saved : list Matrix;       (* the drawing-state stack, top first *)
  painted : list CanvasOp    (* oldest first *)
}.

Inductive AudioBuffer := bikeHornBuffer | airHornBuffer | airHorn2Buffer.

(** A record of the method calls the frame loop makes on horns, in program
    order, each with the receiver as it is when the call starts. It is ghost
    state: nothing reads it. *)
Inductive Call :=
| CallUpdate (h : Horn) (deltaTime : R)
| CallDraw (h : Horn).

(* ================================================================== *)
(** ** The world, and computations over it *)

Record World := mkWorld {
  random_src : nat -> R;     (* the values Math.random() will return *)
  random_pos : nat;          (* how many have been taken *)
  clock_src : nat -> R;      (* the values performance.now() will return *)
  clock_pos : nat;
  surface : Context2D;       (* the page canvas and its 2D context *)
  sounds : list AudioBuffer; (* buffer sources started, oldest first *)
  frame_requests : nat;      (* calls made to requestAnimationFrame(draw) *)
  horns : list Horn;         (* closure variable [horns] *)
  lastTime : R;              (* closure variable [lastTime] *)
  calls : list Call
}.

Inductive Completion (A : Type) :=
| Normal (a : A)
| Throw (e : JSError).
Arguments Normal {A} a.
Arguments Throw {A} e.

Definition M (A : Type) : Type := World -> Completion A * World.

Definition ret {A} (a : A) : M A := fun w => (Normal a, w).

Definition bind {A B} (m : M A) (k : A -> M B) : M B :=
  fun w => match m w with
           | (Normal a, w') => k a w'
           | (Throw e, w') => (Throw e, w')
           end.

Definition throw {A} (e : JSError) : M A := fun w => (Throw e, w).

Definition gets {A} (f : World -> A) : M A := fun w => (Normal (f w), w).

Definition modify (f : World -> World) : M unit := fun w => (Normal tt, f w).

Declare Scope js_scope.
Delimit Scope js_scope with js.
Notation "v <- m ;; k" := (bind m (fun v => k))
  (at level 100, m at next level, right associativity) : js_scope.
Notation "m ;; k" := (bind m (fun _ => k))
  (at level 100, right associativity) : js_scope.
Open Scope js_scope.

Definition set_random_pos (n : nat) (w : World) : World :=
  mkWorld (random_src w) n (clock_src w) (clock_pos w) (surface w) (sounds w)
          (frame_requests w) (horns w) (lastTime w) (calls w).

Definition set_clock_pos (n : nat) (w : World) : World :=
  mkWorld (random_src w) (random_pos w) (clock_src w) n (surface w) (sounds w)
          (frame_requests w) (horns w) (lastTime w) (calls w).

Definition set_surface (c : Context2D) (w : World) : World :=
  mkWorld (random_src w) (random_pos w) (clock_src w) (clock_pos w) c (sounds w)
          (frame_requests w) (horns w) (lastTime w) (calls w).

Definition set_sounds (s : list AudioBuffer) (w : World) : World :=
  mkWorld (random_src w) (random_pos w) (clock_src w) (clock_pos w) (surface w) s
          (frame_requests w) (horns w) (lastTime w) (calls w).

Definition set_frame_requests (n : nat) (w : World) : World :=
  mkWorld (random_src w) (random_pos w) (clock_src w) (clock_pos w) (surface w)
          (sounds w) n (horns w) (lastTime w) (calls w).

Definition set_horns (hs : list Horn) (w : World) : World :=
  mkWorld (random_src w) (random_pos w) (clock_src w) (clock_pos w) (surface w)
          (sounds w) (frame_requests w) hs (lastTime w) (calls w).

Definition set_lastTime (t : R) (w : World) : World :=
  mkWorld (random_src w) (random_pos w) (clock_src w) (clock_pos w) (surface w)
          (sounds w) (frame_requests w) (horns w) t (calls w).

Definition set_calls (cs : list Call) (w : World) : World :=
  mkWorld (random_src w) (random_pos w) (clock_src w) (clock_pos w) (surface w)
          (sounds w) (frame_requests w) (horns w) (lastTime w) cs.

(** [Math.random()] *)
Definition Math_random : M R :=
  fun w => (Normal (random_src w (random_pos w)), set_random_pos (S (random_pos w)) w).

(** [performance.now()] *)
Definition performance_now : M R :=
  fun w => (Normal (clock_src w (clock_pos w)), set_clock_pos (S (clock_pos w)) w).

(** The value the next call of [performance.now()] returns. *)
Definition current_time (w : World) : R := clock_src w (clock_pos w).

(* ================================================================== *)
(** ** CanvasRenderingContext2D, as far as the code calls it *)

Definition modify_surface (f : Context2D -> Context2D) : M unit :=
  modify (fun w => set_surface (f (surface w)) w).

Definition with_transform (m : Matrix) (c : Context2D) : Context2D :=
  mkContext2D (canvas_width c) (canvas_height c) (client_width c) (client_height c)
              m (saved c) (painted c).

Definition with_saved (s : list Matrix) (c : Context2D) : Context2D :=
  mkContext2D (canvas_width c) (canvas_height c) (client_width c) (client_height c)
              (transform c) s (painted c).

Definition paint (op : CanvasOp) (c : Context2D) : Context2D :=
  mkContext2D (canvas_width c) (canvas_height c) (client_width c) (client_height c)
              (transform c) (saved c) (painted c ++ [op]).

(** [context.save()]: push the current drawing state. *)
Definition ctx_save : M unit :=
  modify_surface (fun c => with_saved (transform c :: saved c) c).

(** [context.restore()]: pop the top state and make it current; nothing
    happens on an empty stack. *)
Definition ctx_restore : M unit :=
  modify_surface (fun c =>
    match saved c with
    | [] => c
    | m :: rest => with_saved rest (with_transform m c)
    end).

Definition ctx_translate (tx ty : R) : M unit :=
  modify_surface (fun c => with_transform (translate_matrix (transform c) tx ty) c).

Definition ctx_rotate (angle : R) : M unit :=
  modify_surface (fun c => with_transform (rotate_matrix (transform c) angle) c).

(** [context.drawImage(image, dx, dy, dw, dh)]: an image in the broken state
    raises an InvalidStateError; one that is not completely available, or
    that has no pixels, paints nothing. *)
Definition ctx_drawImage (img : Image) (dx dy dw dh : R) : M unit :=
  match img_status img with
  | ImageBroken => throw InvalidStateError
  | ImageUnavailable => ret tt
  | ImageAvailable =>
      if (N.eqb (img_width img) 0 || N.eqb (img_height img) 0)%bool then ret tt
      else modify_surface (fun c => paint (OpDrawImage img dx dy dw dh (transform c)) c)
  end.

Definition ctx_clearRect (rx ry rw rh : R) : M unit :=
  modify_surface (fun c => paint (OpClearRect rx ry rw rh (transform c)) c).

(** Assigning [canvas.width] or [canvas.height] clears the bitmap and resets
    the context to its default state, the drawing-state stack included. *)
Definition assign_canvas_width (n : N) : M unit :=
  modify_surface (fun c =>
    mkContext2D n (canvas_height c) (client_width c) (client_height c)
                identity_matrix [] (painted c ++ [OpResetBitmap])).

Definition assign_canvas_height (n : N) : M unit :=
  modify_surface (fun c =>
    mkContext2D (canvas_width c) n (client_width c) (client_height c)
                identity_matrix [] (painted c ++ [OpResetBitmap])).

(* ================================================================== *)
(** ** class Horn (src/horn.js) *)

Definition resolve_options (options : OptionsArg) : HornOptions :=
  match options with
  | OptionsObject o => o
  | _ => no_options
  end.

(** [new Horn(context, image, options)] *)
Definition Horn_new (context image : JSValue) (options : OptionsArg) : M Horn :=
  match context with
  | JSCanvasContext =>
    match image with
    | JSImage img =>
      canvasWidth <- gets (fun w => N_to_number (canvas_width (surface w))) ;;
      canvasHeight <- gets (fun w => N_to_number (canvas_height (surface w))) ;;
      r1 <- Math_random ;;
      let angleOffset := (r1 - 0.5) * (PI / 2) in
      r2 <- Math_random ;;
      let speed := r2 * canvasWidth in
      r3 <- Math_random ;;
      let isLeft := Rltb r3 0.5 in
      let angle := PI * (bool_to_number isLeft + 0.5) + angleOffset in
      let aspectRatio := N_to_number (img_height img) / N_to_number (img_width img) in
      match options with
      | OptionsNull => throw (TypeError "Cannot destructure 'options' as it is null.")
      | _ =>
        let o := resolve_options options in
        let width := or_default (opt_width o) 48 in
        let height := or_default (opt_height o) (width * aspectRatio) in
        let minTTL := or_default (opt_minTTL o) 3000 in
        let maxTTL := or_default (opt_maxTTL o) 5000 in
        let maxRotationSpeed := or_default (opt_maxRotationSpeed o) 4 in
        createdAt <- performance_now ;;
        r4 <- Math_random ;;
        let timeToLive := minTTL + r4 * (maxTTL - minTTL) in
        r5 <- Math_random ;;
        let position :=
          mkVec2 (bool_to_number isLeft * canvasWidth)
                 (canvasHeight / 2 + (r5 - 0.5) * (canvasHeight / 2)) in
        let velocity := mkVec2 (sin angle * speed) (cos angle * speed) in
        r6 <- Math_random ;;
        let rotationSpeed := (r6 * 4 - 2) * PI * maxRotationSpeed in
        ret (mkHorn canvasContextRef img width height createdAt timeToLive
                    position velocity rotationSpeed 0)
      end
    | _ =>
      throw (TypeError
        (String.append "Expected image to be a HTMLImageElement. Found: " (typeof image)))
    end
  | _ =>
    throw (TypeError
      (String.append "Expected context to be a CanvasRenderingContext2D. Found: "
                     (typeof context)))
  end.

(** The test [shouldUpdate] makes, once the clock has been read. *)
Definition alive_at (now : R) (h : Horn) : bool :=
  Rltb (now - createdAt h) (timeToLive h).

(** [horn.shouldUpdate()] *)
Definition Horn_shouldUpdate (h : Horn) : M bool :=
  now <- performance_now ;;
  ret (alive_at now h).

(** [horn.update(deltaTime)]: the horn after the call. *)
Definition Horn_update (h : Horn) (deltaTime : R) : Horn :=
  let dtInSeconds := deltaTime / 1000 in
  mkHorn (context h) (image h) (width h) (height h) (createdAt h) (timeToLive h)
         (mkVec2 (x (position h) + x (velocity h) * dtInSeconds)
                 (y (position h) + y (velocity h) * dtInSeconds))
         (velocity h) (rotationSpeed h)
         (rotation h + rotationSpeed h * dtInSeconds).

(** [horn.draw()] *)
Definition Horn_draw (h : Horn) : M unit :=
  ctx_save ;;
  ctx_translate (x (position h)) (y (position h)) ;;
  ctx_rotate (rotation h) ;;
  ctx_drawImage (image h) (- width h / 2) (- height h / 2) (width h) (height h) ;;
  ctx_restore.

(* ================================================================== *)
(** ** The page script: the animation loop and the chat handler *)

(** What the [onload] closure holds once its awaits have resolved. *)
Record Env := mkEnv {
  canvasContext : JSValue;     (* canvas.getContext("2d"), null when refused *)
  hornImage : JSValue;
  textHornImage : JSValue;
  clownImage : JSValue;
  twitchHornImage : JSValue
}.

Record Badges := mkBadges { broadcaster : bool }.

Record Userstate := mkUserstate {
  badges : option Badges;      (* [None]: undefined or null *)
  subscriber : bool
}.

Definition contains (needle hay : string) : bool :=
  match String.index 0 needle hay with Some _ => true | None => false end.

(** [/russmoHORN|russmoHONK/.test(message)] *)
Definition is_trigger (message : string) : bool :=
  (contains "russmoHORN" message || contains "russmoHONK" message)%bool.

(** [playAudioBuffer(audioContext, buffer)] *)
Definition playAudioBuffer (buffer : AudioBuffer) : M unit :=
  modify (fun w => set_sounds (sounds w ++ [buffer]) w).

(** [requestAnimationFrame(draw)] *)
Definition requestAnimationFrame_draw : M unit :=
  modify (fun w => set_frame_requests (S (frame_requests w)) w).

(** [resizeCanvasToDisplaySize(canvas)] *)
Definition resizeCanvasToDisplaySize : M unit :=
  c <- gets surface ;;
  (if N.eqb (canvas_width c) (client_width c) then ret tt
   else assign_canvas_width (client_width c)) ;;
  c <- gets surface ;;
  (if N.eqb (canvas_height c) (client_height c) then ret tt
   else assign_canvas_height (client_height c)).

(** [horns.filter((horn) => horn.shouldUpdate())]: the callback runs on each
    element in order. *)
Fixpoint filter_shouldUpdate (hs : list Horn) : M (list Horn) :=
  match hs with
  | [] => ret []
  | h :: rest =>
      keep <- Horn_shouldUpdate h ;;
      kept <- filter_shouldUpdate rest ;;
      ret (if keep then h :: kept else kept)
  end.

Definition log_call (c : Call) : M unit :=
  modify (fun w => set_calls (calls w ++ [c]) w).

(** [horns.forEach((horn) => { horn.update(dt); horn.draw(); })].  The array
    holds the horns themselves, so what [update] does to one is seen in
    [horns] at once: [done] are the elements already visited, [todo] those
    still to visit. *)
Fixpoint forEach_update_draw (done todo : list Horn) (dt : R) : M unit :=
  match todo with
  | [] => ret tt
  | h :: rest =>
      log_call (CallUpdate h dt) ;;
      let h' := Horn_update h dt in
      modify (set_horns (done ++ h' :: rest)) ;;
      log_call (CallDraw h') ;;
      Horn_draw h' ;;
      forEach_update_draw (done ++ [h']) rest dt
  end.

(** [draw(time)], the callback of requestAnimationFrame *)
Definition draw (env : Env) (time : R) : M unit :=
  resizeCanvasToDisplaySize ;;
  (match canvasContext env with
   | JSCanvasContext =>
       c <- gets surface ;;
       ctx_clearRect 0 0 (N_to_number (canvas_width c)) (N_to_number (canvas_height c))
   | _ => throw (TypeError "canvasContext.clearRect is not a function")
   end) ;;
  hs <- gets horns ;;
  kept <- filter_shouldUpdate hs ;;
  modify (set_horns kept) ;;
  lt <- gets lastTime ;;
  let dt := time - lt in
  forEach_update_draw [] kept dt ;;
  modify (set_lastTime time) ;;
  requestAnimationFrame_draw.

(** The choice [handleMessage] makes of an image and a sound from the
    sender's badges (the assignments to [image] and [audioBuffer]). *)
Definition pick_image_and_sound (env : Env) (userstate : Userstate)
  : M (JSValue * AudioBuffer) :=
  match badges userstate with
  | Some (mkBadges true) =>
      r <- Math_random ;;
      ret (clownImage env, if Rltb 0.5 r then airHornBuffer else airHorn2Buffer)
  | _ =>
      if subscriber userstate then
        r <- Math_random ;;
        ret (if Rltb 0.5 r then hornImage env else twitchHornImage env, bikeHornBuffer)
      else ret (textHornImage env, bikeHornBuffer)
  end.

(** [handleMessage(channel, userstate, message, self)]; [channel] and [self]
    are not used. *)
Definition handleMessage (env : Env) (userstate : Userstate) (message : string) : M unit :=
  if is_trigger message then
    choice <- pick_image_and_sound env userstate ;;
    h <- Horn_new (canvasContext env) (fst choice) OptionsOmitted ;;
    modify (fun w => set_horns (horns w ++ [h]) w) ;;
    playAudioBuffer (snd choice)
  else ret tt.

(* ================================================================== *)
(** ** Auxiliary definitions used in the statements *)

(** The value the [k]-th coming call of [Math.random()] returns ([k] from 0). *)
Definition upcoming_random (w : World) (k : nat) : R :=
  random_src w (k + random_pos w).

(** The value the [k]-th coming call of [performance.now()] returns. *)
Definition upcoming_time (w : World) (k : nat) : R :=
  clock_src w (k + clock_pos w).

(** [n] calls of the same method, one after the other. *)
Fixpoint repeat_call (n : nat) (m : M unit) : M unit :=
  match n with
  | O => ret tt
  | S n' => m ;; repeat_call n' m
  end.

(** Sample data for the examples below: an 800 x 600 canvas, a loaded image
    and one whose decoding failed, and a world where every [Math.random()]
    returns 1/2 and the clock stands at 0. *)
Definition sample_image : Image := mkImage 64 64 ImageAvailable.

Definition broken_image : Image := mkImage 0 0 ImageBroken.

Definition sample_surface : Context2D :=
  mkContext2D 800 600 800 600 identity_matrix [] [].

Definition sample_world : World :=
  mkWorld (fun _ => 1 / 2) 0 (fun _ => 0) 0 sample_surface [] 1 [] 0 [].

(** Options with the two lifetime bounds equal, both 1000 ms. *)
Definition fixed_ttl_options : HornOptions :=
  mkHornOptions None None (Some 1000) (Some 1000) None.

(** The sample world with a canvas that is laid out with no width. *)
Definition zero_width_world : World :=
  mkWorld (fun _ => 1 / 2) 0 (fun _ => 0) 0
          (mkContext2D 0 600 0 600 identity_matrix [] []) [] 1 [] 0 [].

(** A surface with further operations painted on it and nothing else changed. *)
Definition paint_all (ops : list CanvasOp) (c : Context2D) : Context2D :=
  mkContext2D (canvas_width c) (canvas_height c) (client_width c) (client_height c)
              (transform c) (saved c) (painted c ++ ops).

(** A horn in mid flight, drawn with the given image. *)
Definition sample_horn (img : Image) : Horn :=
  mkHorn canvasContextRef img 48 48 0 1000 (mkVec2 0 300) (mkVec2 100 0) PI 0.

(** The horns [draw] keeps: the filter tests the elements in order, each
    against its own reading of the clock. *)
Definition alive_when_tested (w : World) (hs : list Horn) : list Horn :=
  map fst
      (filter (fun ht => alive_at (snd ht) (fst ht))
              (combine hs (map (upcoming_time w) (seq 0 (List.length hs))))).

(** The calls made when each horn of [hs] in turn is updated and then drawn. *)
Definition update_draw_calls (dt : R) (hs : list Horn) : list Call :=
  flat_map (fun h => [CallUpdate h dt; CallDraw (Horn_update h dt)]) hs.

(** The calls made when all horns of [hs] are updated first and drawn after. *)
Definition batched_calls (dt : R) (hs : list Horn) : list Call :=
  map (fun h => CallUpdate h dt) hs ++ map (fun h => CallDraw (Horn_update h dt)) hs.

Definition sample_env : Env :=
  mkEnv JSCanvasContext (JSImage sample_image) (JSImage sample_image)
        (JSImage sample_image) (JSImage sample_image).

(** The closure when [getContext] returned [null]. *)
Definition null_context_env : Env :=
  mkEnv JSNull (JSImage sample_image) (JSImage sample_image)
        (JSImage sample_image) (JSImage sample_image).

Definition plain_viewer : Userstate := mkUserstate None false.

(** The sample world with the given horns on screen. *)
Definition world_with (hs : list Horn) : World :=
  mkWorld (fun _ => 1 / 2) 0 (fun _ => 0) 0 sample_surface [] 1 hs 0 [].

(** A computation that takes no random number and does not depend on how
    many have been taken. *)
Definition random_free {A} (m : M A) : Prop :=
  forall (n : nat) (w : World),
    m (set_random_pos n w) = (fst (m w), set_random_pos n (snd (m w))).

(** The image of a point under a transformation matrix. *)
Definition apply_matrix (m : Matrix) (p : Vec2) : Vec2 :=
  mkVec2 (ma m * x p + mc m * y p + me m) (mb m * x p + md m * y p + mf m).

Definition is_reset_op (op : CanvasOp) : bool :=
  match op with OpResetBitmap => true | _ => false end.

Definition is_drawImage_op (op : CanvasOp) : bool :=
  match op with OpDrawImage _ _ _ _ _ _ => true | _ => false end.

(** The sum of a list of time deltas. *)
Definition total (dts : list R) : R := fold_right Rplus 0 dts.

(** [update] called once for each delta of a list, in order. *)
Definition update_each (h : Horn) (dts : list R) : Horn :=
  fold_left Horn_update dts h.

(** Whether the canvas buffer has the size the canvas is displayed at. *)
Definition fits_display (c : Context2D) : Prop :=
  canvas_width c = client_width c /\ canvas_height c = client_height c.

(** [needle] occurs in [hay]. *)
Definition occurs_in (needle hay : string) : Prop :=
  exists pre post : string, hay = String.append pre (String.append needle post).

(** Whether the sender of a message carries the broadcaster badge. *)
Definition is_broadcaster (u : Userstate) : bool :=
  match badges u with Some (mkBadges true) => true | _ => false end.

(** Two worlds that differ at most in the canvas, the horns and the call
    record. *)
Definition same_outside_loop (w w' : World) : Prop :=
  lastTime w' = lastTime w /\
  frame_requests w' = frame_requests w /\
  sounds w' = sounds w /\
  clock_src w' = clock_src w /\
  clock_pos w' = clock_pos w /\
  random_src w' = random_src w /\
  random_pos w' = random_pos w.

(** The lifetime formula of the constructor,
    [minTTL + Math.random() * (maxTTL - minTTL)], in the code's own
    arithmetic: IEEE binary64, rounding to nearest.  The model computes it
    over exact numbers; this definition is there to show where rounding
    reaches the upper bound. *)
Definition timeToLive_binary64 (minTTL maxTTL random : float) : float :=
  (minTTL + random * (maxTTL - minTTL))%float.

(** What [draw] paints for a horn when the matrix [m] is in force: one
    image for a loaded image with pixels, nothing for an image that is not
    available. *)
Definition painted_by (m : Matrix) (h : Horn) : list CanvasOp :=
  match img_status (image h) with
  | ImageAvailable =>
      if (N.eqb (img_width (image h)) 0 || N.eqb (img_height (image h)) 0)%bool
      then []
      else [OpDrawImage (image h) (- width h / 2) (- height h / 2) (width h) (height h)
              (rotate_matrix
                 (translate_matrix m (x (position h)) (y (position h)))
                 (rotation h))]
  | _ => []
  end.

(** The canvas as [resizeCanvasToDisplaySize] leaves it. *)
Definition fitted_surface (w : World) : Context2D :=
  surface (snd (resizeCanvasToDisplaySize w)).

(* ================================================================== *)
(** ** Basic facts *)

Lemma Rltb_true_iff (a b : R) : Rltb a b = true <-> a < b.
Proof.
  unfold Rltb. destruct (Rlt_dec a b) as [Hlt | Hge]; split; intro H;
    try reflexivity; try assumption; try discriminate; contradiction.
Qed.

Lemma Rltb_false_iff (a b : R) : Rltb a b = false <-> b <= a.
Proof.
  unfold Rltb. destruct (Rlt_dec a b) as [Hlt | Hge]; split; intro H;
    try reflexivity; try discriminate; lra.
Qed.

Lemma N_to_number_nonneg (n : N) : 0 <= N_to_number n.
Proof. unfold N_to_number. apply pos_INR. Qed.

(* ================================================================== *)
(** ** Horn.update *)

(** C10: for every horn and every delta (zero and negative ones included),
    [update] changes nothing but [position.x], [position.y] and [rotation]:
    velocity, rotationSpeed, width, height, timeToLive, createdAt, context
    and image are those of the horn before the call. *)
Theorem update_frame (h : Horn) (deltaTime : R) :
  velocity (Horn_update h deltaTime) = velocity h /\
  rotationSpeed (Horn_update h deltaTime) = rotationSpeed h /\
  width (Horn_update h deltaTime) = width h /\
  height (Horn_update h deltaTime) = height h /\
  timeToLive (Horn_update h deltaTime) = timeToLive h /\
  createdAt (Horn_update h deltaTime) = createdAt h /\
  context (Horn_update h deltaTime) = context h /\
  image (Horn_update h deltaTime) = image h.
Proof. repeat split. Qed.

Lemma update_position (h : Horn) (dt : R) :
  position (Horn_update h dt) =
  mkVec2 (x (position h) + x (velocity h) * dt / 1000)
         (y (position h) + y (velocity h) * dt / 1000).
Proof. cbn. f_equal; field. Qed.

Lemma update_rotation (h : Horn) (dt : R) :
  rotation (Horn_update h dt) = rotation h + rotationSpeed h * dt / 1000.
Proof. cbn. field. Qed.

Lemma update_twice (h : Horn) (a b : R) :
  Horn_update (Horn_update h a) b = Horn_update h (a + b).
Proof. unfold Horn_update; cbn. f_equal; [f_equal |]; field. Qed.

Lemma update_zero (h : Horn) : Horn_update h 0 = h.
Proof.
  destruct h as [c i wd ht ca ttl [px py] v rs r].
  unfold Horn_update; cbn. f_equal; [f_equal |]; field.
Qed.

(** C5: [update(dt)] adds velocity * dt / 1000 to the position and
    rotationSpeed * dt / 1000 to the rotation; hence [update(a)] followed by
    [update(b)] gives the position and rotation of a single [update(a + b)],
    and [update(0)] leaves both as they were.  (Numbers are exact here, so the
    equalities hold with no tolerance.) *)
Theorem update_integrates_linearly (h : Horn) (a b dt : R) :
  position (Horn_update h dt) =
    mkVec2 (x (position h) + x (velocity h) * dt / 1000)
           (y (position h) + y (velocity h) * dt / 1000) /\
  rotation (Horn_update h dt) = rotation h + rotationSpeed h * dt / 1000 /\
  position (Horn_update (Horn_update h a) b) = position (Horn_update h (a + b)) /\
  rotation (Horn_update (Horn_update h a) b) = rotation (Horn_update h (a + b)) /\
  position (Horn_update h 0) = position h /\
  rotation (Horn_update h 0) = rotation h.
Proof.
  split; [apply update_position |].
  split; [apply update_rotation |].
  rewrite update_twice, update_zero. repeat split.
Qed.

(* ================================================================== *)
(** ** Horn.shouldUpdate *)

Lemma shouldUpdate_run (h : Horn) (w : World) :
  Horn_shouldUpdate h w =
  (Normal (alive_at (current_time w) h), set_clock_pos (S (clock_pos w)) w).
Proof. reflexivity. Qed.

Lemma alive_at_window (h : Horn) (now : R) :
  alive_at now h = true <-> now < createdAt h + timeToLive h.
Proof. unfold alive_at. rewrite Rltb_true_iff. lra. Qed.

Lemma alive_at_expired (h : Horn) (now : R) :
  alive_at now h = false <-> createdAt h + timeToLive h <= now.
Proof. unfold alive_at. rewrite Rltb_false_iff. lra. Qed.


(* ================================================================== *)
(** ** The constructor *)

(** With a rendering context, an image element and options that are not
    [null], the constructor returns; this is the horn it builds and the
    world it leaves (six random numbers and one clock reading taken). *)
Lemma Horn_new_valid (img : Image) (options : OptionsArg) (w : World) :
  options <> OptionsNull ->
  let o := resolve_options options in
  let canvasWidth := N_to_number (canvas_width (surface w)) in
  let canvasHeight := N_to_number (canvas_height (surface w)) in
  let isLeft := Rltb (upcoming_random w 2) 0.5 in
  let angle :=
    PI * (bool_to_number isLeft + 0.5) + (upcoming_random w 0 - 0.5) * (PI / 2) in
  let speed := upcoming_random w 1 * canvasWidth in
  let minTTL := or_default (opt_minTTL o) 3000 in
  let maxTTL := or_default (opt_maxTTL o) 5000 in
  let w_ := or_default (opt_width o) 48 in
  Horn_new JSCanvasContext (JSImage img) options w =
  (Normal
     (mkHorn canvasContextRef img w_
        (or_default (opt_height o)
           (w_ * (N_to_number (img_height img) / N_to_number (img_width img))))
        (current_time w)
        (minTTL + upcoming_random w 3 * (maxTTL - minTTL))
        (mkVec2 (bool_to_number isLeft * canvasWidth)
                (canvasHeight / 2 + (upcoming_random w 4 - 0.5) * (canvasHeight / 2)))
        (mkVec2 (sin angle * speed) (cos angle * speed))
        ((upcoming_random w 5 * 4 - 2) * PI * or_default (opt_maxRotationSpeed o) 4)
        0),
   set_random_pos (6 + random_pos w) (set_clock_pos (S (clock_pos w)) w)).
Proof.
  intro Hnot_null.
  destruct options as [ | | o]; [reflexivity | contradiction | reflexivity].
Qed.

Lemma Horn_new_bad_context (context image : JSValue) (options : OptionsArg) (w : World) :
  instanceof_CanvasRenderingContext2D context = false ->
  Horn_new context image options w =
  (Throw (TypeError (String.append
            "Expected context to be a CanvasRenderingContext2D. Found: "
            (typeof context))), w).
Proof. destruct context; intro H; try discriminate H; reflexivity. Qed.

Lemma Horn_new_bad_image (image : JSValue) (options : OptionsArg) (w : World) :
  instanceof_HTMLImageElement image = false ->
  Horn_new JSCanvasContext image options w =
  (Throw (TypeError (String.append
            "Expected image to be a HTMLImageElement. Found: " (typeof image))), w).
Proof. destruct image; intro H; try discriminate H; reflexivity. Qed.

Lemma Horn_new_null_options (img : Image) (w : World) :
  Horn_new JSCanvasContext (JSImage img) OptionsNull w =
  (Throw (TypeError "Cannot destructure 'options' as it is null."),
   set_random_pos (3 + random_pos w) w).
Proof. reflexivity. Qed.

(** C9: for options as documented (left out, or an options object), the
    constructor throws if and only if [context] is not a
    CanvasRenderingContext2D or [image] is not an HTMLImageElement; with both
    handles of the right kind it returns a horn.  What it throws is a
    TypeError, thrown to the caller by the one attempt; when a handle is
    refused nothing has been done yet (no random number or clock reading
    taken, nothing drawn or stored). *)
Theorem constructor_throws_iff_handle_refused
    (context image : JSValue) (options : OptionsArg) (w : World) :
  options <> OptionsNull ->
  ((exists e, fst (Horn_new context image options w) = Throw e) <->
   (instanceof_CanvasRenderingContext2D context = false \/
    instanceof_HTMLImageElement image = false)) /\
  (instanceof_CanvasRenderingContext2D context = true ->
   instanceof_HTMLImageElement image = true ->
   exists h, fst (Horn_new context image options w) = Normal h) /\
  (forall e, fst (Horn_new context image options w) = Throw e -> is_TypeError e = true) /\
  (forall e, fst (Horn_new context image options w) = Throw e ->
             snd (Horn_new context image options w) = w).
Proof.
  intro Hopt.
  destruct (instanceof_CanvasRenderingContext2D context) eqn:Hctx.
  - destruct context; try discriminate Hctx.
    destruct (instanceof_HTMLImageElement image) eqn:Himg.
    + destruct image; try discriminate Himg.
      rewrite Horn_new_valid by assumption. cbn [fst snd].
      split; [split |].
      * intros [e He]; discriminate He.
      * intros [H | H]; discriminate H.
      * split; [intros _ _; eexists; reflexivity |].
        split; intros e He; discriminate He.
    + rewrite Horn_new_bad_image by assumption. cbn [fst snd].
      split; [split |].
      * intros _. right; reflexivity.
      * intros _. eexists; reflexivity.
      * split; [intros _ H; discriminate H |].
        split; intros e He; [injection He as <- |]; reflexivity.
  - rewrite Horn_new_bad_context by assumption. cbn [fst snd].
    split; [split |].
    + intros _. left; reflexivity.
    + intros _. eexists; reflexivity.
    + split; [intros H; discriminate H |].
      split; intros e He; [injection He as <- |]; reflexivity.
Qed.

Lemma constructor_throws_iff_handle_refused_sample :
  (exists e, fst (Horn_new JSNull (JSImage sample_image) OptionsOmitted sample_world)
             = Throw e) /\
  (exists h, fst (Horn_new JSCanvasContext (JSImage sample_image)
                           (OptionsObject fixed_ttl_options) sample_world) = Normal h).
Proof.
  split.
  - apply (constructor_throws_iff_handle_refused JSNull (JSImage sample_image)
             OptionsOmitted sample_world); [discriminate | left; reflexivity].
  - apply (constructor_throws_iff_handle_refused JSCanvasContext (JSImage sample_image)
             (OptionsObject fixed_ttl_options) sample_world);
      [discriminate | reflexivity | reflexivity].
Defined.

(** C6, as stated, fails: the constructor accepts equal bounds
    (minTTL = maxTTL = 1000) and then gives timeToLive = 1000, which is not
    below maxTTL. *)
Lemma ttl_not_below_max_when_bounds_equal :
  0 <= upcoming_random sample_world 3 < 1 /\
  exists h,
    fst (Horn_new JSCanvasContext (JSImage sample_image)
                  (OptionsObject fixed_ttl_options) sample_world) = Normal h /\
    timeToLive h = 1000 /\
    ~ (or_default (opt_minTTL fixed_ttl_options) 3000 <= timeToLive h
       < or_default (opt_maxTTL fixed_ttl_options) 5000).
Proof.
  split; [unfold upcoming_random; cbn; lra |].
  eexists. split; [reflexivity |].
  cbn. split; lra.
Qed.

(** In the code's own arithmetic the lifetime also reaches maxTTL with the
    default bounds: for the largest double below 1 the product rounds up and
    the sum is 5000. *)
Lemma ttl_reaches_max_in_binary64 :
  (0 <=? 0x1.fffffffffffffp-1)%float = true /\
  (0x1.fffffffffffffp-1 <? 1)%float = true /\
  timeToLive_binary64 3000 5000 0x1.fffffffffffffp-1 = 5000%float.
Proof. repeat split. Qed.

(** C6, amended: for every configuration whose bounds satisfy
    minTTL <= maxTTL (they default to 3000 ms and 5000 ms), and every value in
    [0, 1) of the random number used, the constructor returns a horn with
    minTTL <= timeToLive <= maxTTL.  The upper bound is not strict: with
    equal bounds the lifetime is that value. *)
Theorem ttl_within_closed_range (img : Image) (options : OptionsArg) (w : World) :
  options <> OptionsNull ->
  0 <= upcoming_random w 3 < 1 ->
  or_default (opt_minTTL (resolve_options options)) 3000
    <= or_default (opt_maxTTL (resolve_options options)) 5000 ->
  exists h,
    fst (Horn_new JSCanvasContext (JSImage img) options w) = Normal h /\
    or_default (opt_minTTL (resolve_options options)) 3000 <= timeToLive h
      <= or_default (opt_maxTTL (resolve_options options)) 5000 /\
    (or_default (opt_minTTL (resolve_options options)) 3000
       = or_default (opt_maxTTL (resolve_options options)) 5000 ->
     timeToLive h = or_default (opt_maxTTL (resolve_options options)) 5000).
Proof.
  intros Hopt Hr Hle. rewrite Horn_new_valid by assumption.
  eexists. split; [reflexivity |]. cbn [timeToLive].
  set (lo := or_default _ 3000) in *. set (hi := or_default _ 5000) in *.
  set (r := upcoming_random w 3) in *.
  split; [nra | intros ->; ring].
Qed.

Lemma ttl_within_closed_range_default :
  exists h,
    fst (Horn_new JSCanvasContext (JSImage sample_image) OptionsOmitted sample_world)
      = Normal h /\
    3000 <= timeToLive h <= 5000.
Proof.
  destruct (ttl_within_closed_range sample_image OptionsOmitted sample_world)
    as (h & Hrun & Hrange & _).
  - discriminate.
  - unfold upcoming_random; cbn; lra.
  - cbn; lra.
  - exists h. split; [exact Hrun | exact Hrange].
Defined.

(** C7: for every canvas size (W, H) and every value in [0, 1) of the random
    numbers, the horn starts at x = W when the side flag is set and at x = 0
    otherwise, and at a height y with H/4 <= y <= 3H/4. *)
Theorem spawn_position_on_edge (img : Image) (options : OptionsArg) (w : World) :
  options <> OptionsNull ->
  0 <= upcoming_random w 4 < 1 ->
  exists h,
    fst (Horn_new JSCanvasContext (JSImage img) options w) = Normal h /\
    x (position h) =
      (if Rltb (upcoming_random w 2) 0.5
       then N_to_number (canvas_width (surface w)) else 0) /\
    N_to_number (canvas_height (surface w)) / 4 <= y (position h)
      <= 3 * N_to_number (canvas_height (surface w)) / 4.
Proof.
  intros Hopt Hr. rewrite Horn_new_valid by assumption.
  eexists. split; [reflexivity |]. cbn [position x y].
  split.
  - destruct (Rltb (upcoming_random w 2) 0.5); cbn; lra.
  - pose proof (N_to_number_nonneg (canvas_height (surface w))) as HH.
    set (H := N_to_number _) in *. set (r := upcoming_random w 4) in *. nra.
Qed.

Lemma spawn_position_on_edge_sample :
  exists h,
    fst (Horn_new JSCanvasContext (JSImage sample_image) OptionsOmitted sample_world)
      = Normal h /\
    x (position h) =
      (if Rltb (upcoming_random sample_world 2) 0.5
       then N_to_number (canvas_width (surface sample_world)) else 0) /\
    N_to_number (canvas_height (surface sample_world)) / 4 <= y (position h)
      <= 3 * N_to_number (canvas_height (surface sample_world)) / 4.
Proof.
  apply (spawn_position_on_edge sample_image OptionsOmitted sample_world).
  - discriminate.
  - unfold upcoming_random; cbn; lra.
Defined.

(** C8, as stated, fails on a canvas of width 0: the horn is built, its
    velocity is (0, 0), and no speed in the empty range [0, 0) accounts
    for it. *)
Lemma speed_range_empty_on_zero_width :
  N_to_number (canvas_width (surface zero_width_world)) = 0 /\
  exists h,
    fst (Horn_new JSCanvasContext (JSImage sample_image) OptionsOmitted
                  zero_width_world) = Normal h /\
    velocity h = mkVec2 0 0 /\
    ~ (exists angle speed,
          0 <= speed < N_to_number (canvas_width (surface zero_width_world)) /\
          velocity h = mkVec2 (sin angle * speed) (cos angle * speed)).
Proof.
  split; [reflexivity |].
  eexists. split; [reflexivity |]. split.
  - cbn. f_equal; ring.
  - intros (angle & speed & Hrange & _). cbn in Hrange. lra.
Qed.

(** C8, amended: the velocity is (sin(angle) * speed, cos(angle) * speed),
    sin on the x component and cos on the y component, where
    angle = PI * (side + 0.5) + offset, the offset is a random number of
    [0, 1) less 0.5, times PI/2, so within [-PI/4, PI/4], and speed is a
    random number of [0, 1) times the canvas width W: it lies in [0, W) when
    W > 0 and is 0 when W = 0.  When speed = 0 the velocity is (0, 0). *)
Theorem spawn_velocity (img : Image) (options : OptionsArg) (w : World) :
  options <> OptionsNull ->
  0 <= upcoming_random w 0 < 1 ->
  0 <= upcoming_random w 1 < 1 ->
  let W := N_to_number (canvas_width (surface w)) in
  let side := bool_to_number (Rltb (upcoming_random w 2) 0.5) in
  let offset := (upcoming_random w 0 - 0.5) * (PI / 2) in
  let angle := PI * (side + 0.5) + offset in
  let speed := upcoming_random w 1 * W in
  exists h,
    fst (Horn_new JSCanvasContext (JSImage img) options w) = Normal h /\
    velocity h = mkVec2 (sin angle * speed) (cos angle * speed) /\
    - (PI / 4) <= offset <= PI / 4 /\
    0 <= speed /\
    (0 < W -> speed < W) /\
    (W = 0 -> speed = 0) /\
    (speed = 0 -> velocity h = mkVec2 0 0).
Proof.
  intros Hopt Hr0 Hr1 W side offset angle speed.
  rewrite Horn_new_valid by assumption.
  eexists. split; [reflexivity |]. cbn [velocity].
  fold W side offset angle speed.
  pose proof (N_to_number_nonneg (canvas_width (surface w))) as HW. fold W in HW.
  pose proof PI_RGT_0 as Hpi.
  split; [reflexivity |].
  split; [subst offset; set (r := upcoming_random w 0) in *; nra |].
  split; [subst speed; set (r := upcoming_random w 1) in *; nra |].
  split; [intro HWpos; subst speed; set (r := upcoming_random w 1) in *; nra |].
  split; [intro HW0; subst speed; rewrite HW0; ring |].
  intro Hs. rewrite Hs. f_equal; ring.
Qed.

Lemma spawn_velocity_sample :
  let W := N_to_number (canvas_width (surface sample_world)) in
  let speed := upcoming_random sample_world 1 * W in
  exists h,
    fst (Horn_new JSCanvasContext (JSImage sample_image) OptionsOmitted sample_world)
      = Normal h /\
    0 <= speed /\
    (0 < W -> speed < W).
Proof.
  destruct (spawn_velocity sample_image OptionsOmitted sample_world)
    as (h & Hrun & _ & _ & Hpos & Hlt & _).
  - discriminate.
  - unfold upcoming_random; cbn; lra.
  - unfold upcoming_random; cbn; lra.
  - exists h. split; [exact Hrun |]. split; [exact Hpos | exact Hlt].
Defined.

(* ================================================================== *)
(** ** Horn.draw *)

Lemma set_surface_same (w : World) : set_surface (surface w) w = w.
Proof. destruct w; reflexivity. Qed.

Lemma paint_all_nil (c : Context2D) : paint_all [] c = c.
Proof. destruct c; unfold paint_all; cbn. now rewrite app_nil_r. Qed.

(** When [drawImage] does not throw, [draw] returns and the world differs
    at most by what was painted. *)
Lemma Horn_draw_returns (h : Horn) (w : World) :
  img_status (image h) <> ImageBroken ->
  exists ops,
    Horn_draw h w = (Normal tt, set_surface (paint_all ops (surface w)) w).
Proof.
  intro Hok. unfold Horn_draw, ctx_drawImage.
  destruct (img_status (image h)) eqn:Hst; [ | | contradiction].
  - exists []. rewrite paint_all_nil, set_surface_same.
    destruct w as [rs rp cs cp [cw ch lw lh t sv pt] sn fr hs lt cl]. reflexivity.
  - destruct (N.eqb (img_width (image h)) 0 || N.eqb (img_height (image h)) 0)%bool
      eqn:Hzero.
    + exists []. rewrite paint_all_nil, set_surface_same.
      destruct w as [rs rp cs cp [cw ch lw lh t sv pt] sn fr hs lt cl]. reflexivity.
    + eexists [_]. reflexivity.
Qed.

(** When the image is broken, [drawImage] throws and [restore] is not
    reached: the state pushed by [save] stays on the stack. *)
Lemma Horn_draw_broken (h : Horn) (w : World) :
  img_status (image h) = ImageBroken ->
  fst (Horn_draw h w) = Throw InvalidStateError /\
  saved (surface (snd (Horn_draw h w))) = transform (surface w) :: saved (surface w) /\
  horns (snd (Horn_draw h w)) = horns w /\
  lastTime (snd (Horn_draw h w)) = lastTime w /\
  frame_requests (snd (Horn_draw h w)) = frame_requests w /\
  calls (snd (Horn_draw h w)) = calls w.
Proof.
  intro Hst. unfold Horn_draw, ctx_drawImage. rewrite Hst.
  repeat split.
Qed.

Lemma repeat_draw_returns (h : Horn) (n : nat) :
  img_status (image h) <> ImageBroken ->
  forall w, exists ops,
    repeat_call n (Horn_draw h) w = (Normal tt, set_surface (paint_all ops (surface w)) w).
Proof.
  intro Hok. induction n as [ | n IH]; intro w.
  - exists []. now rewrite paint_all_nil, set_surface_same.
  - destruct (Horn_draw_returns h w Hok) as [ops1 H1].
    destruct (IH (set_surface (paint_all ops1 (surface w)) w)) as [ops2 H2].
    exists (ops1 ++ ops2). cbn [repeat_call]. unfold bind at 1. rewrite H1, H2.
    f_equal. destruct w as [rs rp cs cp [cw ch lw lh t sv pt] sn fr hs lt cl].
    unfold set_surface, paint_all; cbn. now rewrite app_assoc.
Qed.

(** C4, as stated, fails: a horn whose image is broken makes [drawImage]
    throw, and the call leaves the stack one state deeper than it found it. *)
Lemma draw_of_broken_image_leaves_stack_deeper :
  fst (Horn_draw (sample_horn broken_image) sample_world) = Throw InvalidStateError /\
  saved (surface sample_world) = [] /\
  saved (surface (snd (Horn_draw (sample_horn broken_image) sample_world)))
    = [identity_matrix].
Proof. repeat split. Qed.

(** C4, amended: every call of [draw] in which [drawImage] does not throw
    (the image is not in the broken state) returns and leaves the stack of
    saved states, and the current transform, exactly as it found them; so
    does any number of such calls in a row.  (When [drawImage] throws, the
    exception leaves [draw] before [restore] is reached.) *)
Theorem draw_restores_saved_states (h : Horn) (n : nat) (w : World) :
  img_status (image h) <> ImageBroken ->
  fst (Horn_draw h w) = Normal tt /\
  saved (surface (snd (Horn_draw h w))) = saved (surface w) /\
  transform (surface (snd (Horn_draw h w))) = transform (surface w) /\
  fst (repeat_call n (Horn_draw h) w) = Normal tt /\
  saved (surface (snd (repeat_call n (Horn_draw h) w))) = saved (surface w).
Proof.
  intro Hok.
  destruct (Horn_draw_returns h w Hok) as [ops1 H1].
  destruct (repeat_draw_returns h n Hok w) as [ops2 H2].
  rewrite H1, H2. repeat split.
Qed.

Lemma draw_restores_saved_states_sample :
  fst (Horn_draw (sample_horn sample_image) sample_world) = Normal tt /\
  saved (surface (snd (Horn_draw (sample_horn sample_image) sample_world))) = [] /\
  saved (surface (snd (repeat_call 3 (Horn_draw (sample_horn sample_image))
                                   sample_world))) = [].
Proof.
  destruct (draw_restores_saved_states (sample_horn sample_image) 3 sample_world)
    as (Hrun & Hsaved & _ & _ & Hrep).
  - cbn. discriminate.
  - repeat split; assumption.
Defined.

(* ================================================================== *)
(** ** The animation loop *)

Lemma bind_normal {A B} (m : M A) (k : A -> M B) (w w' : World) (a : A) :
  m w = (Normal a, w') -> bind m k w = k a w'.
Proof. intro H. unfold bind. now rewrite H. Qed.

Lemma bind_throw {A B} (m : M A) (k : A -> M B) (w w' : World) (e : JSError) :
  m w = (Throw e, w') -> bind m k w = (Throw e, w').
Proof. intro H. unfold bind. now rewrite H. Qed.

Lemma set_clock_pos_twice (n m : nat) (w : World) :
  set_clock_pos n (set_clock_pos m w) = set_clock_pos n w.
Proof. reflexivity. Qed.

Lemma upcoming_time_after_read (w : World) (k : nat) :
  upcoming_time (set_clock_pos (S (clock_pos w)) w) k = upcoming_time w (S k).
Proof. unfold upcoming_time; cbn. now rewrite Nat.add_succ_r. Qed.

Lemma alive_when_tested_cons (w : World) (h : Horn) (hs : list Horn) :
  alive_when_tested w (h :: hs) =
  if alive_at (current_time w) h
  then h :: alive_when_tested (set_clock_pos (S (clock_pos w)) w) hs
  else alive_when_tested (set_clock_pos (S (clock_pos w)) w) hs.
Proof.
  unfold alive_when_tested. cbn [List.length seq map combine filter fst snd].
  assert (Hshift :
    map (upcoming_time w) (seq 1 (List.length hs)) =
    map (upcoming_time (set_clock_pos (S (clock_pos w)) w)) (seq 0 (List.length hs))).
  { rewrite <- seq_shift, map_map. apply map_ext.
    intro k. now rewrite upcoming_time_after_read. }
  rewrite Hshift. change (upcoming_time w 0) with (current_time w).
  destruct (alive_at (current_time w) h); reflexivity.
Qed.

(** The filter never throws; it reads the clock once per element. *)
Lemma filter_shouldUpdate_run (hs : list Horn) : forall w : World,
  filter_shouldUpdate hs w =
  (Normal (alive_when_tested w hs), set_clock_pos (List.length hs + clock_pos w) w).
Proof.
  induction hs as [ | h rest IH]; intro w.
  - destruct w; reflexivity.
  - cbn [filter_shouldUpdate].
    rewrite (bind_normal _ _ _ _ _ (shouldUpdate_run h w)).
    rewrite (bind_normal _ _ _ _ _ (IH _)).
    rewrite alive_when_tested_cons. unfold ret. f_equal.
    rewrite set_clock_pos_twice. cbn [clock_pos set_clock_pos List.length].
    now rewrite Nat.add_succ_r.
Qed.

(** With the clock standing still during the filter, the horns kept are
    those alive at that one time. *)
Lemma alive_when_tested_fixed_clock (t : R) (hs : list Horn) : forall w : World,
  (forall k, (k < List.length hs)%nat -> upcoming_time w k = t) ->
  alive_when_tested w hs = filter (alive_at t) hs.
Proof.
  induction hs as [ | h rest IH]; intros w Hclock.
  - reflexivity.
  - rewrite alive_when_tested_cons. cbn [filter].
    change (current_time w) with (upcoming_time w 0).
    rewrite (Hclock 0%nat) by (cbn; lia).
    rewrite IH.
    + reflexivity.
    + intros k Hk. rewrite upcoming_time_after_read. apply Hclock. cbn; lia.
Qed.

Lemma resize_run (w : World) :
  exists c, resizeCanvasToDisplaySize w = (Normal tt, set_surface c w).
Proof.
  unfold resizeCanvasToDisplaySize, bind, gets, assign_canvas_width,
    assign_canvas_height, modify_surface, modify, ret.
  destruct w as [rs rp cs cp c sn fr hs lt cl]; cbn.
  destruct (N.eqb (canvas_width c) (client_width c)); cbn;
    match goal with
    | |- context [N.eqb ?a ?b] => destruct (N.eqb a b)
    end; cbn; eexists; reflexivity.
Qed.

Lemma update_draw_calls_cons (dt : R) (h : Horn) (hs : list Horn) :
  update_draw_calls dt (h :: hs) =
  CallUpdate h dt :: CallDraw (Horn_update h dt) :: update_draw_calls dt hs.
Proof. reflexivity. Qed.

(** The loop over the kept horns, when no [draw] throws: every horn is
    updated in place and drawn, in order. *)
Lemma forEach_returns (dt : R) (todo : list Horn) : forall (done : list Horn) (w : World),
  (forall h, In h todo -> img_status (image h) <> ImageBroken) ->
  horns w = done ++ todo ->
  exists w',
    forEach_update_draw done todo dt w = (Normal tt, w') /\
    horns w' = done ++ map (fun h => Horn_update h dt) todo /\
    calls w' = calls w ++ update_draw_calls dt todo /\
    lastTime w' = lastTime w /\
    frame_requests w' = frame_requests w /\
    sounds w' = sounds w /\
    saved (surface w') = saved (surface w).
Proof.
  induction todo as [ | h rest IH]; intros done w Hok Hhorns.
  - exists w. cbn. rewrite !app_nil_r. rewrite app_nil_r in Hhorns.
    repeat split; assumption.
  - cbn [forEach_update_draw].
    erewrite bind_normal by reflexivity.
    erewrite bind_normal by reflexivity.
    erewrite bind_normal by reflexivity.
    assert (Hh : img_status (image (Horn_update h dt)) <> ImageBroken)
      by (apply (Hok h); left; reflexivity).
    match goal with
    | |- context [bind (Horn_draw ?hh) _ ?ww] =>
        destruct (Horn_draw_returns hh ww Hh) as [ops Hd];
        rewrite (bind_normal _ _ _ _ _ Hd)
    end.
    match goal with
    | |- context [forEach_update_draw ?d rest dt ?ww] =>
        destruct (IH d ww) as (w' & Hrun & Hhs & Hcalls & Hlt & Hfr & Hsn & Hsv)
    end.
    + intros h0 Hin. apply Hok. right; exact Hin.
    + cbn. now rewrite <- app_assoc.
    + exists w'. split; [exact Hrun |].
      split; [rewrite Hhs; cbn; now rewrite <- app_assoc |].
      split; [rewrite Hcalls, update_draw_calls_cons; cbn;
              now rewrite <- !app_assoc |].
      repeat split; assumption.
Qed.

Lemma paired_calls_are_not_batched (dt : R) (h1 h2 : Horn) (hs : list Horn) (cs : list Call) :
  cs ++ update_draw_calls dt (h1 :: h2 :: hs) <> cs ++ batched_calls dt (h1 :: h2 :: hs).
Proof.
  intro Heq. apply app_inv_head in Heq. cbn in Heq. discriminate Heq.
Qed.

Lemma Horn_new_keeps_horns (context image : JSValue) (options : OptionsArg) (w : World) :
  horns (snd (Horn_new context image options w)) = horns w.
Proof.
  destruct (instanceof_CanvasRenderingContext2D context) eqn:Hctx.
  - destruct context; try discriminate Hctx.
    destruct (instanceof_HTMLImageElement image) eqn:Himg.
    + destruct image; try discriminate Himg.
      destruct options; reflexivity.
    + now rewrite Horn_new_bad_image.
  - now rewrite Horn_new_bad_context.
Qed.

Lemma pick_image_and_sound_run (env : Env) (userstate : Userstate) (w : World) :
  exists choice n,
    pick_image_and_sound env userstate w = (Normal choice, set_random_pos n w).
Proof.
  unfold pick_image_and_sound.
  destruct (badges userstate) as [[[ | ]] | ].
  - do 2 eexists. reflexivity.
  - destruct (subscriber userstate).
    + do 2 eexists. reflexivity.
    + exists (textHornImage env, bikeHornBuffer), (random_pos w).
      destruct w; reflexivity.
  - destruct (subscriber userstate).
    + do 2 eexists. reflexivity.
    + exists (textHornImage env, bikeHornBuffer), (random_pos w).
      destruct w; reflexivity.
Qed.

(** The chat handler never takes a horn out of the collection: it leaves
    [horns] alone or pushes one horn at its end. *)
Lemma handleMessage_only_appends
    (env : Env) (userstate : Userstate) (message : string) (w : World) :
  exists pushed,
    horns (snd (handleMessage env userstate message w)) = horns w ++ pushed.
Proof.
  unfold handleMessage. destruct (is_trigger message).
  - destruct (pick_image_and_sound_run env userstate w) as (choice & n & Hpick).
    rewrite (bind_normal _ _ _ _ _ Hpick).
    pose proof (Horn_new_keeps_horns (canvasContext env) (fst choice) OptionsOmitted
                  (set_random_pos n w)) as Hkeep.
    unfold bind at 1.
    destruct (Horn_new (canvasContext env) (fst choice) OptionsOmitted
                (set_random_pos n w)) as [[h | e] w2]; cbn [snd] in *.
    + exists [h]. cbn. now rewrite Hkeep.
    + exists []. now rewrite app_nil_r.
  - exists []. cbn. now rewrite app_nil_r.
Qed.

(* ================================================================== *)
(** ** The animation loop takes no random numbers *)

Create HintDb random_free.

Lemma random_free_ret {A} (a : A) : random_free (ret a).
Proof. intros n w. reflexivity. Qed.

Lemma random_free_throw {A} (e : JSError) : random_free (@throw A e).
Proof. intros n w. reflexivity. Qed.

Lemma random_free_bind {A B} (m : M A) (k : A -> M B) :
  random_free m -> (forall a, random_free (k a)) -> random_free (bind m k).
Proof.
  intros Hm Hk n w. unfold bind. rewrite Hm.
  destruct (m w) as [[a | e] w1]; cbn [fst snd]; [apply Hk | reflexivity].
Qed.

Lemma random_free_gets {A} (f : World -> A) :
  (forall n w, f (set_random_pos n w) = f w) -> random_free (gets f).
Proof. intros Hf n w. unfold gets. now rewrite Hf. Qed.

Lemma random_free_modify (f : World -> World) :
  (forall n w, f (set_random_pos n w) = set_random_pos n (f w)) ->
  random_free (modify f).
Proof. intros Hf n w. unfold modify. now rewrite Hf. Qed.

Lemma random_free_modify_surface (f : Context2D -> Context2D) :
  random_free (modify_surface f).
Proof. intros n w. reflexivity. Qed.

Lemma random_free_performance_now : random_free performance_now.
Proof. intros n w. reflexivity. Qed.

#[local] Hint Resolve random_free_ret random_free_throw random_free_modify_surface
  random_free_performance_now : random_free.

Ltac random_free_steps :=
  repeat first
    [ apply random_free_bind; [ | intro ]
    | apply random_free_gets; reflexivity
    | apply random_free_modify; reflexivity
    | solve [ auto with random_free ] ].

Lemma random_free_Horn_shouldUpdate (h : Horn) : random_free (Horn_shouldUpdate h).
Proof. unfold Horn_shouldUpdate. random_free_steps. Qed.

Lemma random_free_Horn_draw (h : Horn) : random_free (Horn_draw h).
Proof.
  unfold Horn_draw, ctx_save, ctx_translate, ctx_rotate, ctx_restore, ctx_drawImage.
  random_free_steps.
  destruct (img_status (image h)); random_free_steps.
  destruct (_ || _)%bool; random_free_steps.
Qed.

Lemma random_free_filter_shouldUpdate (hs : list Horn) :
  random_free (filter_shouldUpdate hs).
Proof.
  induction hs as [ | h rest IH]; cbn [filter_shouldUpdate].
  - random_free_steps.
  - apply random_free_bind; [apply random_free_Horn_shouldUpdate | intro keep].
    apply random_free_bind; [exact IH | intro kept]. random_free_steps.
Qed.

Lemma random_free_forEach (dt : R) (todo : list Horn) :
  forall done, random_free (forEach_update_draw done todo dt).
Proof.
  induction todo as [ | h rest IH]; intro done; cbn [forEach_update_draw].
  - random_free_steps.
  - unfold log_call.
    apply random_free_bind; [random_free_steps | intros _].
    apply random_free_bind; [random_free_steps | intros _].
    apply random_free_bind; [random_free_steps | intros _].
    apply random_free_bind; [apply random_free_Horn_draw | intros _].
    apply IH.
Qed.

Lemma random_free_resize : random_free resizeCanvasToDisplaySize.
Proof.
  unfold resizeCanvasToDisplaySize, assign_canvas_width, assign_canvas_height.
  random_free_steps; destruct (N.eqb _ _); random_free_steps.
Qed.

(** A tick does the same whatever the number of random numbers taken so far. *)
Lemma random_free_draw (env : Env) (time : R) : random_free (draw env time).
Proof.
  unfold draw.
  apply random_free_bind; [apply random_free_resize | intros _].
  apply random_free_bind.
  { destruct (canvasContext env); unfold ctx_clearRect; random_free_steps. }
  intros _.
  apply random_free_bind; [random_free_steps | intro hs].
  apply random_free_bind; [apply random_free_filter_shouldUpdate | intro kept].
  apply random_free_bind; [random_free_steps | intros _].
  apply random_free_bind; [random_free_steps | intro lt].
  apply random_free_bind; [apply random_free_forEach | intros _].
  unfold requestAnimationFrame_draw. random_free_steps.
Qed.

(* ================================================================== *)
(** ** The chat handler *)

(** With [options] left out the constructor throws only when it refuses a
    handle: the error is a TypeError and nothing has been changed. *)
Lemma Horn_new_throw_keeps_world (context image : JSValue) (w : World) (e : JSError) :
  fst (Horn_new context image OptionsOmitted w) = Throw e ->
  is_TypeError e = true /\ snd (Horn_new context image OptionsOmitted w) = w.
Proof.
  destruct (instanceof_CanvasRenderingContext2D context) eqn:Hctx.
  - destruct context; try discriminate Hctx.
    destruct (instanceof_HTMLImageElement image) eqn:Himg.
    + destruct image; try discriminate Himg.
      rewrite Horn_new_valid by discriminate. cbn [fst]. discriminate.
    + rewrite Horn_new_bad_image by assumption. cbn [fst snd].
      intro He. injection He as <-. now split.
  - rewrite Horn_new_bad_context by assumption. cbn [fst snd].
    intro He. injection He as <-. now split.
Qed.

(** C1, as stated, fails: nothing catches the constructor's error.  With
    the context missing the constructor throws, and the same TypeError leaves
    [handleMessage]. *)
Lemma spawn_error_leaves_handler :
  is_trigger "russmoHONK" = true /\
  fst (Horn_new (canvasContext null_context_env) (textHornImage null_context_env)
                OptionsOmitted sample_world)
    = Throw (TypeError "Expected context to be a CanvasRenderingContext2D. Found: object") /\
  fst (handleMessage null_context_env plain_viewer "russmoHONK" sample_world)
    = Throw (TypeError "Expected context to be a CanvasRenderingContext2D. Found: object").
Proof. repeat split. Qed.

(** C1, amended: if the constructor rejects a spawn, [handleMessage] does
    not catch the error: the TypeError leaves [handleMessage] for its caller.
    Only the spawn attempt is lost: [horns], [lastTime], the frame requests
    made and the canvas are as before the message and no sound is played
    (the world differs at most in the random numbers taken), and the next
    tick does exactly what it would have done had the message not come,
    leaving again the same world but for the random numbers taken: the error
    neither stops the frame loop nor changes it.  That is not to say
    the loop is running: when the image handed over is an image element, as
    all the images of the page are, the rejection can only come from a
    missing rendering context, and then every tick, with or without the
    message, throws a TypeError and requests no further frame. *)
Theorem rejected_spawn_leaves_loop_untouched
    (env : Env) (userstate : Userstate) (message : string)
    (w w1 : World) (choice : JSValue * AudioBuffer) (e : JSError) :
  is_trigger message = true ->
  pick_image_and_sound env userstate w = (Normal choice, w1) ->
  fst (Horn_new (canvasContext env) (fst choice) OptionsOmitted w1) = Throw e ->
  fst (handleMessage env userstate message w) = Throw e /\
  is_TypeError e = true /\
  horns (snd (handleMessage env userstate message w)) = horns w /\
  lastTime (snd (handleMessage env userstate message w)) = lastTime w /\
  frame_requests (snd (handleMessage env userstate message w)) = frame_requests w /\
  sounds (snd (handleMessage env userstate message w)) = sounds w /\
  surface (snd (handleMessage env userstate message w)) = surface w /\
  (exists n,
    snd (handleMessage env userstate message w) = set_random_pos n w /\
    forall time,
      draw env time (snd (handleMessage env userstate message w)) =
      (fst (draw env time w), set_random_pos n (snd (draw env time w)))) /\
  (instanceof_HTMLImageElement (fst choice) = true ->
   instanceof_CanvasRenderingContext2D (canvasContext env) = false /\
   forall time, exists e',
     fst (draw env time w) = Throw e' /\
     is_TypeError e' = true /\
     frame_requests (snd (draw env time w)) = frame_requests w).
Proof.
  intros Htrig Hpick Hthrow.
  destruct (Horn_new_throw_keeps_world _ _ _ _ Hthrow) as [Htype Hsame].
  assert (Hnew : Horn_new (canvasContext env) (fst choice) OptionsOmitted w1
                 = (Throw e, w1)).
  { rewrite (surjective_pairing (Horn_new _ _ _ _)). now rewrite Hthrow, Hsame. }
  assert (Hpage : instanceof_HTMLImageElement (fst choice) = true ->
                  instanceof_CanvasRenderingContext2D (canvasContext env) = false).
  { intro Himg.
    destruct (instanceof_CanvasRenderingContext2D (canvasContext env)) eqn:Hctx;
      [ | reflexivity].
    destruct (canvasContext env); try discriminate Hctx.
    destruct (fst choice); try discriminate Himg.
    rewrite Horn_new_valid in Hthrow by discriminate. discriminate Hthrow. }
  unfold handleMessage. rewrite Htrig.
  rewrite (bind_normal _ _ _ _ _ Hpick).
  rewrite (bind_throw _ _ _ _ _ Hnew). cbn [fst snd].
  destruct (pick_image_and_sound_run env userstate w) as (choice' & n & Hrun).
  rewrite Hrun in Hpick. injection Hpick as _ <-.
  split; [reflexivity |]. split; [exact Htype |].
  do 5 (split; [reflexivity |]).
  split.
  - exists n. split; [reflexivity |].
    intro time. apply random_free_draw.
  - intro Himg. specialize (Hpage Himg). split; [exact Hpage |].
    intro time. destruct (resize_run w) as [c Hresize].
    unfold draw. rewrite (bind_normal _ _ _ _ _ Hresize).
    destruct (canvasContext env); try discriminate Hpage;
      (eexists; split; [reflexivity |]; split; reflexivity).
Qed.

Lemma rejected_spawn_leaves_loop_untouched_sample :
  fst (handleMessage null_context_env plain_viewer "russmoHONK" sample_world)
    = Throw (TypeError "Expected context to be a CanvasRenderingContext2D. Found: object") /\
  horns (snd (handleMessage null_context_env plain_viewer "russmoHONK" sample_world))
    = horns sample_world /\
  frame_requests (snd (handleMessage null_context_env plain_viewer "russmoHONK"
                                     sample_world)) = frame_requests sample_world /\
  (forall time, exists e',
     fst (draw null_context_env time sample_world) = Throw e' /\
     is_TypeError e' = true /\
     frame_requests (snd (draw null_context_env time sample_world))
       = frame_requests sample_world).
Proof.
  destruct (rejected_spawn_leaves_loop_untouched null_context_env plain_viewer
              "russmoHONK" sample_world sample_world
              (textHornImage null_context_env, bikeHornBuffer)
              (TypeError "Expected context to be a CanvasRenderingContext2D. Found: object"))
    as (Hthrow & _ & Hhorns & _ & Hframes & _ & _ & _ & Hpage).
  - reflexivity.
  - reflexivity.
  - reflexivity.
  - repeat split; try assumption. apply Hpage. reflexivity.
Defined.

(* ================================================================== *)
(** ** Further properties of the horn *)

Lemma update_each_total (dts : list R) : forall h : Horn,
  update_each h dts = Horn_update h (total dts).
Proof.
  unfold update_each.
  induction dts as [ | dt rest IH]; intro h; cbn [fold_left total fold_right].
  - symmetry. apply update_zero.
  - rewrite IH. apply update_twice.
Qed.

(** X1: however the elapsed time is cut into frames, a horn ends where one
    [update] over the total time puts it: two sequences of deltas with the
    same sum give the same horn. *)
Theorem updates_depend_on_total_time (h : Horn) (dts1 dts2 : list R) :
  total dts1 = total dts2 ->
  update_each h dts1 = update_each h dts2 /\
  position (update_each h dts1) =
    mkVec2 (x (position h) + x (velocity h) * total dts1 / 1000)
           (y (position h) + y (velocity h) * total dts1 / 1000).
Proof.
  intro Hsum. rewrite !update_each_total, Hsum. split; [reflexivity |].
  rewrite <- Hsum. apply update_position.
Qed.

Lemma updates_depend_on_total_time_sample :
  update_each (sample_horn sample_image) [16; 17; 17]
  = update_each (sample_horn sample_image) [50].
Proof.
  apply (updates_depend_on_total_time (sample_horn sample_image) [16; 17; 17] [50]).
  cbn. lra.
Defined.

(** X2: a horn built with 0 <= maxRotationSpeed starts unrotated and spins at
    no more than maxRotationSpeed turns per second either way:
    |rotationSpeed| <= 2 * PI * maxRotationSpeed (4 turns when not given). *)
Theorem spawn_rotation_speed_bounded (img : Image) (options : OptionsArg) (w : World) :
  options <> OptionsNull ->
  0 <= upcoming_random w 5 < 1 ->
  0 <= or_default (opt_maxRotationSpeed (resolve_options options)) 4 ->
  exists h,
    fst (Horn_new JSCanvasContext (JSImage img) options w) = Normal h /\
    rotation h = 0 /\
    Rabs (rotationSpeed h)
      <= 2 * PI * or_default (opt_maxRotationSpeed (resolve_options options)) 4.
Proof.
  intros Hopt Hr Hmax. rewrite Horn_new_valid by assumption.
  eexists. split; [reflexivity |]. cbn [rotation rotationSpeed].
  split; [reflexivity |].
  set (m := or_default _ 4) in *. set (r := upcoming_random w 5) in *.
  pose proof PI_RGT_0 as Hpi.
  assert (Hpm : 0 <= PI * m) by nra.
  apply Rabs_le. split; nra.
Qed.

Lemma spawn_rotation_speed_bounded_sample :
  exists h,
    fst (Horn_new JSCanvasContext (JSImage sample_image) OptionsOmitted sample_world)
      = Normal h /\
    rotation h = 0 /\
    Rabs (rotationSpeed h) <= 2 * PI * 4.
Proof.
  apply (spawn_rotation_speed_bounded sample_image OptionsOmitted sample_world).
  - discriminate.
  - unfold upcoming_random; cbn; lra.
  - cbn; lra.
Defined.

(** X3: the width defaults to 48; a height that is not given is computed
    from the width so that the horn has the proportions of its image
    (height * image.width = width * image.height, for an image of non-zero
    width), and a height that is given is taken as it is. *)
Theorem spawn_size_keeps_aspect_ratio (img : Image) (options : OptionsArg) (w : World) :
  options <> OptionsNull ->
  img_width img <> 0%N ->
  exists h,
    fst (Horn_new JSCanvasContext (JSImage img) options w) = Normal h /\
    width h = or_default (opt_width (resolve_options options)) 48 /\
    (opt_height (resolve_options options) = None ->
     height h * N_to_number (img_width img) = width h * N_to_number (img_height img)) /\
    (forall v, opt_height (resolve_options options) = Some v -> height h = v).
Proof.
  intros Hopt Hw. rewrite Horn_new_valid by assumption.
  eexists. split; [reflexivity |]. cbn [width height].
  split; [reflexivity |].
  split.
  - intros ->. cbn [or_default]. field.
    unfold N_to_number. apply not_0_INR. intro H0. apply Hw.
    rewrite <- (N2Nat.id (img_width img)), H0. reflexivity.
  - intros v ->. reflexivity.
Qed.

Lemma spawn_size_keeps_aspect_ratio_sample :
  exists h,
    fst (Horn_new JSCanvasContext (JSImage (mkImage 200 100 ImageAvailable))
                  OptionsOmitted sample_world) = Normal h /\
    width h = 48.
Proof.
  destruct (spawn_size_keeps_aspect_ratio (mkImage 200 100 ImageAvailable)
              OptionsOmitted sample_world) as (h & Hrun & Hwidth & _).
  - discriminate.
  - discriminate.
  - exists h. split; assumption.
Defined.

(** X4: a horn built with minTTL <= maxTTL lives at least minTTL and at most
    maxTTL: [shouldUpdate] holds at every time less than minTTL after the
    construction and fails at every time maxTTL or more after it. *)
Theorem spawned_horn_lives_between_bounds
    (img : Image) (options : OptionsArg) (w : World) :
  options <> OptionsNull ->
  0 <= upcoming_random w 3 < 1 ->
  or_default (opt_minTTL (resolve_options options)) 3000
    <= or_default (opt_maxTTL (resolve_options options)) 5000 ->
  exists h,
    fst (Horn_new JSCanvasContext (JSImage img) options w) = Normal h /\
    createdAt h = current_time w /\
    (forall now,
        now - current_time w < or_default (opt_minTTL (resolve_options options)) 3000 ->
        alive_at now h = true) /\
    (forall now,
        or_default (opt_maxTTL (resolve_options options)) 5000 <= now - current_time w ->
        alive_at now h = false).
Proof.
  intros Hopt Hr Hle. rewrite Horn_new_valid by assumption.
  eexists. split; [reflexivity |]. split; [reflexivity |].
  set (lo := or_default _ 3000) in *. set (hi := or_default _ 5000) in *.
  set (r := upcoming_random w 3) in *.
  split; intros now Hnow.
  - apply alive_at_window. cbn [createdAt timeToLive]. fold lo hi r. nra.
  - apply alive_at_expired. cbn [createdAt timeToLive]. fold lo hi r. nra.
Qed.

Lemma spawned_horn_lives_between_bounds_sample :
  exists h,
    fst (Horn_new JSCanvasContext (JSImage sample_image) OptionsOmitted sample_world)
      = Normal h /\
    alive_at 2999 h = true /\ alive_at 5000 h = false.
Proof.
  destruct (spawned_horn_lives_between_bounds sample_image OptionsOmitted sample_world)
    as (h & Hrun & _ & Hlive & Hdead).
  - discriminate.
  - unfold upcoming_random; cbn; lra.
  - cbn; lra.
  - exists h. split; [exact Hrun |]. split.
    + apply Hlive. unfold current_time; cbn. lra.
    + apply Hdead. unfold current_time; cbn. lra.
Defined.

Lemma sin_cos_three_half_pi (o : R) :
  sin (PI * (1 + 0.5) + o) = - cos o /\ cos (PI * (1 + 0.5) + o) = sin o.
Proof.
  replace (PI * (1 + 0.5)) with (3 * (PI / 2)) by lra.
  rewrite sin_plus, cos_plus, sin_3PI2, cos_3PI2. split; ring.
Qed.

Lemma sin_cos_half_pi (o : R) :
  sin (PI * (0 + 0.5) + o) = cos o /\ cos (PI * (0 + 0.5) + o) = - sin o.
Proof.
  replace (PI * (0 + 0.5)) with (PI / 2) by lra.
  rewrite sin_plus, cos_plus, sin_PI2, cos_PI2. split; ring.
Qed.

(** Within a quarter turn either side of zero the cosine dominates the sine. *)
Lemma sin_le_cos_near_zero (o : R) :
  - (PI / 4) <= o <= PI / 4 -> 0 <= cos o /\ - cos o <= sin o <= cos o.
Proof.
  intros [Hlo Hhi]. pose proof PI_RGT_0 as Hpi.
  assert (Hc4 : 0 < cos (PI / 4)) by (apply cos_gt_0; lra).
  pose proof sin_cos_PI4 as Hs4.
  assert (Hplus : 0 <= cos (o + PI / 4)) by (apply cos_ge_0; lra).
  assert (Hminus : 0 <= cos (o - PI / 4)) by (apply cos_ge_0; lra).
  rewrite cos_plus in Hplus. rewrite cos_minus in Hminus. rewrite Hs4 in Hplus, Hminus.
  split.
  - apply cos_ge_0; lra.
  - split; nra.
Qed.

(** X5: a new horn flies into the canvas, mostly across it: one that starts
    on the edge x = W has a velocity with x component <= 0, one that starts
    on x = 0 has it >= 0; the x component is at least 0.7 of the speed drawn
    in size and the y component at most 0.71 of it (the launch angle is
    within a quarter turn of horizontal). *)
Theorem spawn_velocity_points_inward (img : Image) (options : OptionsArg) (w : World) :
  options <> OptionsNull ->
  0 <= upcoming_random w 0 < 1 ->
  0 <= upcoming_random w 1 ->
  let W := N_to_number (canvas_width (surface w)) in
  let speed := upcoming_random w 1 * W in
  exists h,
    fst (Horn_new JSCanvasContext (JSImage img) options w) = Normal h /\
    (Rltb (upcoming_random w 2) 0.5 = true ->
     x (position h) = W /\ x (velocity h) <= 0) /\
    (Rltb (upcoming_random w 2) 0.5 = false ->
     x (position h) = 0 /\ 0 <= x (velocity h)) /\
    0.7 * speed <= Rabs (x (velocity h)) /\
    Rabs (y (velocity h)) <= 0.71 * speed.
Proof.
  intros Hopt Hr0 Hr1 W speed.
  rewrite Horn_new_valid by assumption.
  eexists. split; [reflexivity |]. cbn [position velocity x y].
  fold W speed.
  pose proof (N_to_number_nonneg (canvas_width (surface w))) as HW. fold W in HW.
  assert (Hspeed : 0 <= speed) by (subst speed; nra).
  pose proof PI_RGT_0 as Hpi.
  set (o := (upcoming_random w 0 - 0.5) * (PI / 2)).
  assert (Ho : - (PI / 4) <= o <= PI / 4)
    by (subst o; set (r := upcoming_random w 0) in *; nra).
  destruct (sin_le_cos_near_zero o Ho) as [Hcos Hsin].
  pose proof (sin2_cos2 o) as Hunit. unfold Rsqr in Hunit.
  assert (Hc : 0.7 <= cos o) by nra.
  assert (Hs : - 0.71 <= sin o <= 0.71) by (split; nra).
  assert (Hvx : 0.7 * speed <= cos o * speed) by nra.
  assert (Hvy : - (0.71 * speed) <= sin o * speed <= 0.71 * speed) by (split; nra).
  destruct (Rltb (upcoming_random w 2) 0.5); cbn [bool_to_number].
  - destruct (sin_cos_three_half_pi o) as [-> ->].
    split; [intros _; split; nra |].
    split; [discriminate |].
    split.
    + rewrite Rabs_left1 by nra. lra.
    + apply Rabs_le. lra.
  - destruct (sin_cos_half_pi o) as [-> ->].
    split; [discriminate |].
    split; [intros _; split; nra |].
    split.
    + rewrite Rabs_right by nra. lra.
    + apply Rabs_le. lra.
Qed.

Lemma spawn_velocity_points_inward_sample :
  exists h,
    fst (Horn_new JSCanvasContext (JSImage sample_image) OptionsOmitted sample_world)
      = Normal h /\
    0 <= x (velocity h).
Proof.
  destruct (spawn_velocity_points_inward sample_image OptionsOmitted sample_world)
    as (h & Hrun & _ & Hright & _).
  - discriminate.
  - unfold upcoming_random; cbn; lra.
  - unfold upcoming_random; cbn; lra.
  - exists h. split; [exact Hrun |].
    apply Hright. apply Rltb_false_iff. unfold upcoming_random; cbn. lra.
Defined.

(** X6: whatever its arguments, the constructor draws nothing, plays
    nothing, schedules nothing and does not put the horn in [horns]; when it
    returns it has taken exactly six random numbers and one clock reading. *)
Theorem constructor_only_reads_the_world
    (context image : JSValue) (options : OptionsArg) (w : World) :
  let w' := snd (Horn_new context image options w) in
  surface w' = surface w /\
  horns w' = horns w /\
  lastTime w' = lastTime w /\
  sounds w' = sounds w /\
  frame_requests w' = frame_requests w /\
  (forall h, fst (Horn_new context image options w) = Normal h ->
             random_pos w' = (6 + random_pos w)%nat /\
             clock_pos w' = S (clock_pos w)).
Proof.
  destruct (instanceof_CanvasRenderingContext2D context) eqn:Hctx.
  - destruct context; try discriminate Hctx.
    destruct (instanceof_HTMLImageElement image) eqn:Himg.
    + destruct image; try discriminate Himg.
      destruct options as [ | | o].
      * rewrite Horn_new_valid by discriminate. cbn. repeat split.
      * rewrite Horn_new_null_options. cbn. repeat split; discriminate.
      * rewrite Horn_new_valid by discriminate. cbn. repeat split.
    + rewrite Horn_new_bad_image by assumption. cbn. repeat split; discriminate.
  - rewrite Horn_new_bad_context by assumption. cbn. repeat split; discriminate.
Qed.

(** X7: a horn whose image is loaded is painted by one [drawImage], of the
    horn's width and height, whose rectangle has its centre at the origin of
    a transform that carries that origin to the horn's position: the image
    is centred on the position (under the transform in force when [draw] is
    called; with the identity in force, at the position itself), whatever the
    rotation.  Nothing else in the world changes. *)
Theorem draw_centres_image_on_position (h : Horn) (w : World) :
  img_status (image h) = ImageAvailable ->
  img_width (image h) <> 0%N ->
  img_height (image h) <> 0%N ->
  exists dx dy m,
    Horn_draw h w =
      (Normal tt,
       set_surface
         (paint_all [OpDrawImage (image h) dx dy (width h) (height h) m] (surface w)) w) /\
    apply_matrix m (mkVec2 (dx + width h / 2) (dy + height h / 2))
      = apply_matrix (transform (surface w)) (position h) /\
    (transform (surface w) = identity_matrix ->
     apply_matrix m (mkVec2 (dx + width h / 2) (dy + height h / 2)) = position h).
Proof.
  intros Hst Hw Hh.
  exists (- width h / 2), (- height h / 2),
         (rotate_matrix (translate_matrix (transform (surface w))
                                          (x (position h)) (y (position h)))
                        (rotation h)).
  assert (Hzero : (N.eqb (img_width (image h)) 0 || N.eqb (img_height (image h)) 0)%bool
                  = false).
  { apply orb_false_iff. split; now apply N.eqb_neq. }
  split.
  - unfold Horn_draw, ctx_drawImage. rewrite Hst, Hzero. reflexivity.
  - assert (Hcentre :
      apply_matrix
        (rotate_matrix (translate_matrix (transform (surface w))
                                         (x (position h)) (y (position h)))
                       (rotation h))
        (mkVec2 (- width h / 2 + width h / 2) (- height h / 2 + height h / 2))
      = apply_matrix (transform (surface w)) (position h)).
    { unfold apply_matrix, rotate_matrix, translate_matrix; cbn. f_equal; field. }
    split; [exact Hcentre |].
    intro Hid. rewrite Hcentre, Hid.
    destruct (position h) as [px py]. unfold apply_matrix; cbn. f_equal; ring.
Qed.

Lemma draw_centres_image_on_position_sample :
  exists dx dy m,
    apply_matrix m (mkVec2 (dx + 48 / 2) (dy + 48 / 2)) = mkVec2 0 300 /\
    painted (surface (snd (Horn_draw (sample_horn sample_image) sample_world)))
      = [OpDrawImage sample_image dx dy 48 48 m].
Proof.
  destruct (draw_centres_image_on_position (sample_horn sample_image) sample_world)
    as (dx & dy & m & Hrun & _ & Hpos).
  - reflexivity.
  - discriminate.
  - discriminate.
  - exists dx, dy, m. split.
    + apply Hpos. reflexivity.
    + rewrite Hrun. reflexivity.
Defined.

(* ================================================================== *)
(** ** resizeCanvasToDisplaySize *)

Lemma resize_unchanged_when_fitted (w : World) :
  fits_display (surface w) -> resizeCanvasToDisplaySize w = (Normal tt, w).
Proof.
  intros [Hw Hh].
  unfold resizeCanvasToDisplaySize, bind, gets, ret.
  rewrite Hw, N.eqb_refl. cbn [surface]. rewrite Hh, N.eqb_refl. reflexivity.
Qed.

(** X8: [resizeCanvasToDisplaySize] never throws and leaves the canvas
    buffer with the size the canvas is displayed at; it touches nothing but
    the canvas.  On a canvas that already has that size it changes nothing
    at all (what is painted stays), so calling it a second time is without
    effect. *)
Theorem resize_fits_canvas_to_display (w : World) :
  exists c,
    resizeCanvasToDisplaySize w = (Normal tt, set_surface c w) /\
    canvas_width c = client_width (surface w) /\
    canvas_height c = client_height (surface w) /\
    client_width c = client_width (surface w) /\
    client_height c = client_height (surface w) /\
    (fits_display (surface w) -> c = surface w) /\
    resizeCanvasToDisplaySize (set_surface c w) = (Normal tt, set_surface c w).
Proof.
  assert (Hmain : exists c,
    resizeCanvasToDisplaySize w = (Normal tt, set_surface c w) /\
    canvas_width c = client_width (surface w) /\
    canvas_height c = client_height (surface w) /\
    client_width c = client_width (surface w) /\
    client_height c = client_height (surface w) /\
    (fits_display (surface w) -> c = surface w)).
  { destruct w as [rs rp cs cp [cw ch lw lh t sv pt] sn fr hs lt cl].
    unfold resizeCanvasToDisplaySize, bind, gets, assign_canvas_width,
      assign_canvas_height, modify_surface, modify, ret, fits_display.
    cbn [surface canvas_width canvas_height client_width client_height].
    destruct (N.eqb_spec cw lw) as [Ew | Ew];
      cbn [surface canvas_width canvas_height client_width client_height set_surface];
      destruct (N.eqb_spec ch lh) as [Eh | Eh];
      cbn [surface canvas_width canvas_height client_width client_height set_surface];
      eexists; (split; [reflexivity |]);
      cbn [canvas_width canvas_height client_width client_height];
      (split; [congruence |]); (split; [congruence |]);
      (split; [reflexivity |]); (split; [reflexivity |]);
      intros [H1 H2]; congruence. }
  destruct Hmain as (c & Hrun & Hcw & Hch & Hlw & Hlh & Hsame).
  exists c. repeat split; try assumption.
  apply resize_unchanged_when_fitted. split; cbn [surface set_surface]; congruence.
Qed.

(* ================================================================== *)
(** ** The trigger test *)

Lemma substring_prefix_occurs (t : string) : forall s : string,
  substring 0 (String.length t) s = t -> exists post, s = String.append t post.
Proof.
  induction t as [ | c t IH]; intros s Hsub.
  - exists s. reflexivity.
  - destruct s as [ | c' s']; cbn in Hsub; [discriminate Hsub |].
    injection Hsub as -> Hrest. destruct (IH s' Hrest) as [post ->].
    exists post. reflexivity.
Qed.

Lemma substring_occurs (t : string) (m : nat) : forall s : string,
  t <> EmptyString -> substring m (String.length t) s = t -> occurs_in t s.
Proof.
  induction m as [ | m IH]; intros s Hne Hsub.
  - destruct (substring_prefix_occurs t s Hsub) as [post ->].
    exists EmptyString, post. reflexivity.
  - destruct s as [ | c s'].
    + destruct t; [contradiction | discriminate Hsub].
    + cbn in Hsub. destruct (IH s' Hne Hsub) as (pre & post & ->).
      exists (String c pre), post. reflexivity.
Qed.

Lemma substring_of_occurrence (pre t post : string) :
  substring (String.length pre) (String.length t)
            (String.append pre (String.append t post)) = t.
Proof.
  induction pre as [ | c pre IH]; cbn.
  - clear. revert post. induction t as [ | c t IH]; intro post; cbn.
    + destruct post; reflexivity.
    + now rewrite IH.
  - exact IH.
Qed.

Lemma contains_iff_occurs (needle hay : string) :
  needle <> EmptyString ->
  contains needle hay = true <-> occurs_in needle hay.
Proof.
  intro Hne. unfold contains. split.
  - destruct (index 0 needle hay) as [m | ] eqn:Hidx; [intros _ | discriminate].
    apply (substring_occurs needle m hay Hne).
    now apply (index_correct1 0).
  - intros (pre & post & ->).
    destruct (index 0 needle _) as [m | ] eqn:Hidx; [reflexivity |].
    exfalso.
    apply (index_correct3 0 (String.length pre) _ _ Hidx Hne (Nat.le_0_l _)).
    apply substring_of_occurrence.
Qed.

(** X9: a message is a trigger exactly when the text russmoHORN or the text
    russmoHONK occurs in it, anywhere and with these very letters. *)
Theorem is_trigger_iff_emote_occurs (message : string) :
  is_trigger message = true <->
  occurs_in "russmoHORN" message \/ occurs_in "russmoHONK" message.
Proof.
  unfold is_trigger. rewrite orb_true_iff.
  rewrite !contains_iff_occurs by discriminate. reflexivity.
Qed.

(* ================================================================== *)
(** ** Further properties of the chat handler *)

Lemma pick_image_and_sound_by_role (env : Env) (userstate : Userstate) (w : World) :
  exists choice n,
    pick_image_and_sound env userstate w = (Normal choice, set_random_pos n w) /\
    (is_broadcaster userstate = true ->
     fst choice = clownImage env /\
     (snd choice = airHornBuffer \/ snd choice = airHorn2Buffer)) /\
    (is_broadcaster userstate = false ->
     snd choice = bikeHornBuffer /\
     (subscriber userstate = true ->
      fst choice = hornImage env \/ fst choice = twitchHornImage env) /\
     (subscriber userstate = false -> fst choice = textHornImage env)).
Proof.
  assert (Hsame : set_random_pos (random_pos w) w = w) by (destruct w; reflexivity).
  unfold pick_image_and_sound, is_broadcaster.
  destruct (badges userstate) as [[[ | ]] | ].
  - do 2 eexists. split; [reflexivity |]. cbn [fst snd].
    split; [intros _ | discriminate].
    split; [reflexivity |]. destruct (Rltb 0.5 _); [left | right]; reflexivity.
  - destruct (subscriber userstate).
    + do 2 eexists. split; [reflexivity |]. cbn [fst snd].
      split; [discriminate | intros _].
      split; [reflexivity |]. split; [intros _ | discriminate].
      destruct (Rltb 0.5 _); [left | right]; reflexivity.
    + exists (textHornImage env, bikeHornBuffer), (random_pos w).
      rewrite Hsame. split; [reflexivity |]. cbn [fst snd].
      split; [discriminate | intros _].
      split; [reflexivity |]. split; [discriminate | reflexivity].
  - destruct (subscriber userstate).
    + do 2 eexists. split; [reflexivity |]. cbn [fst snd].
      split; [discriminate | intros _].
      split; [reflexivity |]. split; [intros _ | discriminate].
      destruct (Rltb 0.5 _); [left | right]; reflexivity.
    + exists (textHornImage env, bikeHornBuffer), (random_pos w).
      rewrite Hsame. split; [reflexivity |]. cbn [fst snd].
      split; [discriminate | intros _].
      split; [reflexivity |]. split; [discriminate | reflexivity].
Qed.

(** What a trigger message does when the closure holds a rendering context
    and four image elements. *)
Lemma handleMessage_spawn_run
    (env : Env) (userstate : Userstate) (message : string) (w : World) :
  is_trigger message = true ->
  canvasContext env = JSCanvasContext ->
  instanceof_HTMLImageElement (hornImage env) = true ->
  instanceof_HTMLImageElement (textHornImage env) = true ->
  instanceof_HTMLImageElement (clownImage env) = true ->
  instanceof_HTMLImageElement (twitchHornImage env) = true ->
  exists choice h w',
    (exists n, pick_image_and_sound env userstate w = (Normal choice, set_random_pos n w)) /\
    handleMessage env userstate message w = (Normal tt, w') /\
    fst choice = JSImage (image h) /\
    horns w' = horns w ++ [h] /\
    sounds w' = sounds w ++ [snd choice] /\
    rotation h = 0 /\
    createdAt h = current_time w /\
    clock_pos w' = S (clock_pos w) /\
    lastTime w' = lastTime w /\
    frame_requests w' = frame_requests w /\
    surface w' = surface w.
Proof.
  intros Htrig Hctx Hi1 Hi2 Hi3 Hi4.
  destruct (pick_image_and_sound_by_role env userstate w)
    as (choice & n & Hpick & Hbroad & Hother).
  assert (Himg : instanceof_HTMLImageElement (fst choice) = true).
  { destruct (is_broadcaster userstate).
    - destruct (Hbroad eq_refl) as [-> _]. exact Hi3.
    - destruct (Hother eq_refl) as (_ & Hsub & Hplain).
      destruct (subscriber userstate).
      + destruct (Hsub eq_refl) as [-> | ->]; assumption.
      + rewrite (Hplain eq_refl). exact Hi2. }
  destruct (fst choice) as [ | | | | | | img | ] eqn:Hfst; try discriminate Himg.
  unfold handleMessage. rewrite Htrig, Hctx.
  rewrite (bind_normal _ _ _ _ _ Hpick). rewrite Hfst.
  pose proof (Horn_new_valid img OptionsOmitted (set_random_pos n w)
                ltac:(discriminate)) as Hnew.
  cbv zeta in Hnew.
  match type of Hnew with
  | _ = (Normal ?built, _) => set (h := built) in *
  end.
  rewrite (bind_normal _ _ _ _ _ Hnew).
  exists choice, h. eexists.
  split; [exists n; exact Hpick |].
  split; [reflexivity |].
  split; [exact Hfst |].
  repeat split.
Qed.

(** X10: a trigger message, when the closure holds a rendering context and
    four image elements, is handled without an exception: exactly one new
    horn, unrotated and created at the current time, is pushed at the end of
    [horns], and exactly one sound is started; [lastTime], the frame requests
    and the canvas are untouched. *)
Theorem trigger_spawns_one_horn (env : Env) (userstate : Userstate)
    (message : string) (w : World) :
  is_trigger message = true ->
  canvasContext env = JSCanvasContext ->
  instanceof_HTMLImageElement (hornImage env) = true ->
  instanceof_HTMLImageElement (textHornImage env) = true ->
  instanceof_HTMLImageElement (clownImage env) = true ->
  instanceof_HTMLImageElement (twitchHornImage env) = true ->
  exists h s w',
    handleMessage env userstate message w = (Normal tt, w') /\
    horns w' = horns w ++ [h] /\
    sounds w' = sounds w ++ [s] /\
    rotation h = 0 /\
    createdAt h = current_time w /\
    lastTime w' = lastTime w /\
    frame_requests w' = frame_requests w /\
    surface w' = surface w.
Proof.
  intros Htrig Hctx Hi1 Hi2 Hi3 Hi4.
  destruct (handleMessage_spawn_run env userstate message w Htrig Hctx Hi1 Hi2 Hi3 Hi4)
    as (choice & h & w' & _ & Hrun & _ & Hh & Hs & Hrot & Hat & _ & Hlt & Hfr & Hsf).
  exists h, (snd choice), w'. repeat split; assumption.
Qed.

Lemma trigger_spawns_one_horn_sample :
  exists h s w',
    handleMessage sample_env plain_viewer "russmoHONK" sample_world = (Normal tt, w') /\
    horns w' = [h] /\ sounds w' = [s].
Proof.
  destruct (trigger_spawns_one_horn sample_env plain_viewer "russmoHONK" sample_world)
    as (h & s & w' & Hrun & Hh & Hs & _); try reflexivity.
  exists h, s, w'. repeat split; assumption.
Defined.

(** X11: who sent the trigger decides the picture and the sound.  The
    broadcaster gets the clown image and one of the two air horns; a
    subscriber (not the broadcaster) gets the horn image or the Twitch emote
    image, with the bike horn; anyone else gets the text horn image with the
    bike horn.  The broadcaster badge wins over the subscriber flag. *)
Theorem sender_decides_image_and_sound (env : Env) (userstate : Userstate)
    (message : string) (w : World) :
  is_trigger message = true ->
  canvasContext env = JSCanvasContext ->
  instanceof_HTMLImageElement (hornImage env) = true ->
  instanceof_HTMLImageElement (textHornImage env) = true ->
  instanceof_HTMLImageElement (clownImage env) = true ->
  instanceof_HTMLImageElement (twitchHornImage env) = true ->
  exists h s,
    horns (snd (handleMessage env userstate message w)) = horns w ++ [h] /\
    sounds (snd (handleMessage env userstate message w)) = sounds w ++ [s] /\
    (is_broadcaster userstate = true ->
     JSImage (image h) = clownImage env /\ (s = airHornBuffer \/ s = airHorn2Buffer)) /\
    (is_broadcaster userstate = false ->
     s = bikeHornBuffer /\
     (subscriber userstate = true ->
      JSImage (image h) = hornImage env \/ JSImage (image h) = twitchHornImage env) /\
     (subscriber userstate = false -> JSImage (image h) = textHornImage env)).
Proof.
  intros Htrig Hctx Hi1 Hi2 Hi3 Hi4.
  destruct (handleMessage_spawn_run env userstate message w Htrig Hctx Hi1 Hi2 Hi3 Hi4)
    as (choice & h & w' & [n Hpick] & Hrun & Himg & Hh & Hs & _).
  destruct (pick_image_and_sound_by_role env userstate w)
    as (choice' & n' & Hpick' & Hbroad & Hother).
  rewrite Hpick in Hpick'. injection Hpick' as <- _.
  exists h, (snd choice). rewrite Hrun. cbn [snd]. rewrite <- Himg.
  repeat split; try assumption.
  - now apply Hbroad.
  - now apply Hbroad.
  - now apply Hother.
  - now apply Hother.
  - now apply Hother.
Qed.

Lemma sender_decides_image_and_sound_sample :
  exists h s,
    horns (snd (handleMessage sample_env (mkUserstate (Some (mkBadges true)) true)
                              "a russmoHORN b" sample_world)) = [h] /\
    sounds (snd (handleMessage sample_env (mkUserstate (Some (mkBadges true)) true)
                               "a russmoHORN b" sample_world)) = [s] /\
    (s = airHornBuffer \/ s = airHorn2Buffer).
Proof.
  destruct (sender_decides_image_and_sound sample_env
              (mkUserstate (Some (mkBadges true)) true) "a russmoHORN b" sample_world)
    as (h & s & Hh & Hs & Hbroad & _); try reflexivity.
  exists h, s. split; [exact Hh |]. split; [exact Hs |].
  now apply Hbroad.
Defined.

(** X12: a message in which neither emote occurs is ignored: nothing is
    thrown and the world, random numbers included, is left as it was. *)
Theorem other_messages_are_ignored (env : Env) (userstate : Userstate)
    (message : string) (w : World) :
  ~ occurs_in "russmoHORN" message ->
  ~ occurs_in "russmoHONK" message ->
  handleMessage env userstate message w = (Normal tt, w).
Proof.
  intros Hhorn Hhonk.
  assert (Htrig : is_trigger message = false).
  { unfold is_trigger. apply orb_false_iff. split; apply not_true_is_false;
      intro Hc; apply contains_iff_occurs in Hc; try discriminate; contradiction. }
  unfold handleMessage. rewrite Htrig. reflexivity.
Qed.

Lemma other_messages_are_ignored_sample :
  handleMessage sample_env plain_viewer "honk" sample_world = (Normal tt, sample_world).
Proof.
  apply (other_messages_are_ignored sample_env plain_viewer "honk" sample_world).
  - intro Hocc. apply (contains_iff_occurs "russmoHORN" "honk") in Hocc;
      [discriminate Hocc | discriminate].
  - intro Hocc. apply (contains_iff_occurs "russmoHONK" "honk") in Hocc;
      [discriminate Hocc | discriminate].
Defined.

(* ================================================================== *)
(** ** Further properties of the animation loop *)

Lemma paint_all_twice (ops1 ops2 : list CanvasOp) (c : Context2D) :
  paint_all ops2 (paint_all ops1 c) = paint_all (ops1 ++ ops2) c.
Proof. unfold paint_all; cbn. now rewrite app_assoc. Qed.

Lemma Horn_draw_returns_ops (h : Horn) (w : World) :
  img_status (image h) <> ImageBroken ->
  exists ops,
    forallb is_drawImage_op ops = true /\
    Horn_draw h w = (Normal tt, set_surface (paint_all ops (surface w)) w).
Proof.
  intro Hok. unfold Horn_draw, ctx_drawImage.
  destruct (img_status (image h)) eqn:Hst; [ | | contradiction].
  - exists []. split; [reflexivity |]. rewrite paint_all_nil, set_surface_same.
    destruct w as [rs rp cs cp [cw ch lw lh t sv pt] sn fr hs lt cl]. reflexivity.
  - destruct (N.eqb (img_width (image h)) 0 || N.eqb (img_height (image h)) 0)%bool
      eqn:Hzero.
    + exists []. split; [reflexivity |]. rewrite paint_all_nil, set_surface_same.
      destruct w as [rs rp cs cp [cw ch lw lh t sv pt] sn fr hs lt cl]. reflexivity.
    + eexists [_]. split; [ | reflexivity]. reflexivity.
Qed.

Lemma Horn_draw_throws (h : Horn) (w : World) :
  img_status (image h) = ImageBroken ->
  exists c,
    Horn_draw h w = (Throw InvalidStateError, set_surface c w) /\
    saved c = transform (surface w) :: saved (surface w).
Proof.
  intro Hst. unfold Horn_draw, ctx_drawImage. rewrite Hst.
  eexists. split; reflexivity.
Qed.

(** Whether it returns or throws, [draw] on a horn changes the canvas only. *)
Lemma Horn_draw_only_surface (h : Horn) (w : World) :
  exists c, snd (Horn_draw h w) = set_surface c w.
Proof.
  destruct (img_status (image h)) eqn:Hst.
  - destruct (Horn_draw_returns_ops h w) as (ops & _ & ->); [congruence |].
    eexists; reflexivity.
  - destruct (Horn_draw_returns_ops h w) as (ops & _ & ->); [congruence |].
    eexists; reflexivity.
  - destruct (Horn_draw_throws h w Hst) as (c & -> & _). eexists; reflexivity.
Qed.

Ltac world_fields :=
  cbn [random_src random_pos clock_src clock_pos surface sounds frame_requests
       horns lastTime calls
       set_random_pos set_clock_pos set_surface set_sounds set_frame_requests
       set_horns set_lastTime set_calls fst snd].

Ltac world_fields_in H :=
  cbn [random_src random_pos clock_src clock_pos surface sounds frame_requests
       horns lastTime calls
       set_random_pos set_clock_pos set_surface set_sounds set_frame_requests
       set_horns set_lastTime set_calls fst snd] in H.

Lemma same_outside_loop_refl (w : World) : same_outside_loop w w.
Proof. repeat split. Qed.

(** However the loop over the horns ends, it keeps the number of horns and
    touches neither [lastTime], the frame requests, the sounds, the clock nor
    the random numbers. *)
Lemma forEach_any_outcome (dt : R) (todo : list Horn) : forall (done : list Horn) (w : World),
  horns w = done ++ todo ->
  List.length (horns (snd (forEach_update_draw done todo dt w))) = List.length (horns w) /\
  same_outside_loop w (snd (forEach_update_draw done todo dt w)).
Proof.
  induction todo as [ | h rest IH]; intros done w Hhorns.
  - split; [reflexivity | apply same_outside_loop_refl].
  - cbn [forEach_update_draw].
    erewrite bind_normal by reflexivity.
    erewrite bind_normal by reflexivity.
    erewrite bind_normal by reflexivity.
    match goal with
    | |- context [bind (Horn_draw ?hh) _ ?ww] =>
        destruct (Horn_draw_only_surface hh ww) as [c Hc];
        destruct (Horn_draw hh ww) as [[u | e] w3] eqn:Hd;
        cbn [snd] in Hc; subst w3
    end.
    + rewrite (bind_normal _ _ _ _ _ Hd).
      match goal with
      | |- context [forEach_update_draw ?d rest dt ?ww] =>
          destruct (IH d ww) as (Hlen & Hsame)
      end.
      * world_fields. now rewrite <- app_assoc.
      * match goal with
        | |- context [snd ?r] => set (w' := snd r) in *
        end.
        world_fields_in Hlen. unfold same_outside_loop in *. world_fields_in Hsame.
        split; [ | exact Hsame].
        rewrite Hlen, Hhorns, !length_app. reflexivity.
    + rewrite (bind_throw _ _ _ _ _ Hd). unfold same_outside_loop. world_fields.
      split; [ | repeat split].
      rewrite Hhorns, !length_app. reflexivity.
Qed.

(** The loop over the kept horns when no [draw] throws. *)
Lemma forEach_returns_fields (dt : R) (todo : list Horn) :
  forall (done : list Horn) (w : World),
  (forall h, In h todo -> img_status (image h) <> ImageBroken) ->
  horns w = done ++ todo ->
  exists w' ops,
    forEach_update_draw done todo dt w = (Normal tt, w') /\
    forallb is_drawImage_op ops = true /\
    surface w' = paint_all ops (surface w) /\
    horns w' = done ++ map (fun h => Horn_update h dt) todo /\
    calls w' = calls w ++ update_draw_calls dt todo /\
    same_outside_loop w w'.
Proof.
  induction todo as [ | h rest IH]; intros done w Hok Hhorns.
  - exists w, []. cbn [forEach_update_draw map update_draw_calls flat_map].
    rewrite paint_all_nil, !app_nil_r. rewrite app_nil_r in Hhorns.
    repeat split; try assumption.
  - cbn [forEach_update_draw].
    erewrite bind_normal by reflexivity.
    erewrite bind_normal by reflexivity.
    erewrite bind_normal by reflexivity.
    assert (Hh : img_status (image (Horn_update h dt)) <> ImageBroken)
      by (apply (Hok h); left; reflexivity).
    match goal with
    | |- context [bind (Horn_draw ?hh) _ ?ww] =>
        destruct (Horn_draw_returns_ops hh ww Hh) as (ops1 & Hops1 & Hd);
        rewrite (bind_normal _ _ _ _ _ Hd)
    end.
    match goal with
    | |- context [forEach_update_draw ?d rest dt ?ww] =>
        destruct (IH d ww) as (w' & ops2 & Hrun & Hops2 & Hsf & Hhs & Hcalls & Hsame)
    end.
    + intros h0 Hin. apply Hok. right; exact Hin.
    + world_fields. now rewrite <- app_assoc.
    + world_fields_in Hsf. world_fields_in Hcalls.
      unfold same_outside_loop in *. world_fields_in Hsame.
      exists w', (ops1 ++ ops2).
      split; [exact Hrun |].
      split; [rewrite forallb_app, Hops1, Hops2; reflexivity |].
      split; [rewrite Hsf; apply paint_all_twice |].
      split; [rewrite Hhs; cbn [map]; now rewrite <- app_assoc |].
      split; [rewrite Hcalls, update_draw_calls_cons; now rewrite <- !app_assoc |].
      exact Hsame.
Qed.

Lemma resize_world (w : World) :
  exists c resets,
    forallb is_reset_op resets = true /\
    resizeCanvasToDisplaySize w = (Normal tt, set_surface c w) /\
    painted c = painted (surface w) ++ resets /\
    canvas_width c = client_width (surface w) /\
    canvas_height c = client_height (surface w).
Proof.
  destruct w as [rs rp cs cp [cw ch lw lh t sv pt] sn fr hs lt cl].
  unfold resizeCanvasToDisplaySize, bind, gets, assign_canvas_width,
    assign_canvas_height, modify_surface, modify, ret.
  cbn [surface canvas_width canvas_height client_width client_height painted].
  destruct (N.eqb_spec cw lw) as [Ew | Ew];
    cbn [surface canvas_width canvas_height client_width client_height set_surface
         painted];
    destruct (N.eqb_spec ch lh) as [Eh | Eh];
    cbn [surface canvas_width canvas_height client_width client_height set_surface
         painted].
  - exists (mkContext2D cw ch lw lh t sv pt), [].
    rewrite app_nil_r. repeat split; assumption.
  - eexists. exists [OpResetBitmap]. repeat split. exact Ew.
  - eexists. exists [OpResetBitmap]. repeat split. exact Eh.
  - eexists. exists [OpResetBitmap; OpResetBitmap].
    split; [reflexivity |]. split; [reflexivity |].
    cbn [painted canvas_width canvas_height]. rewrite <- app_assoc. repeat split.
Qed.

Lemma alive_when_tested_length (hs : list Horn) : forall w : World,
  (List.length (alive_when_tested w hs) <= List.length hs)%nat.
Proof.
  induction hs as [ | h rest IH]; intro w.
  - cbn. lia.
  - rewrite alive_when_tested_cons.
    specialize (IH (set_clock_pos (S (clock_pos w)) w)).
    destruct (alive_at (current_time w) h); cbn [List.length]; lia.
Qed.

Lemma alive_when_tested_all (hs : list Horn) : forall w : World,
  (forall h k, In h hs -> (k < List.length hs)%nat ->
               alive_at (upcoming_time w k) h = true) ->
  alive_when_tested w hs = hs.
Proof.
  induction hs as [ | h rest IH]; intros w Halive.
  - reflexivity.
  - rewrite alive_when_tested_cons.
    change (current_time w) with (upcoming_time w 0).
    rewrite (Halive h 0%nat) by (cbn; auto with arith).
    f_equal. apply IH. intros h0 k Hin Hk.
    rewrite upcoming_time_after_read. apply Halive; [now right | cbn; lia].
Qed.

(** The horns kept depend on the world through the clock only. *)
Lemma alive_when_tested_same_clock (w1 w2 : World) (hs : list Horn) :
  clock_src w1 = clock_src w2 -> clock_pos w1 = clock_pos w2 ->
  alive_when_tested w1 hs = alive_when_tested w2 hs.
Proof.
  intros Hsrc Hpos. unfold alive_when_tested, upcoming_time.
  now rewrite Hsrc, Hpos.
Qed.

(** The first half of a tick, when the closure holds a rendering context:
    the canvas is fitted and cleared, the horns are filtered, and the loop
    over the kept horns starts in the world shown. *)
Lemma draw_until_loop (env : Env) (time : R) (w : World) :
  canvasContext env = JSCanvasContext ->
  exists c resets,
    forallb is_reset_op resets = true /\
    painted c = painted (surface w) ++ resets ++
                [OpClearRect 0 0 (N_to_number (client_width (surface w)))
                             (N_to_number (client_height (surface w))) (transform c)] /\
    draw env time w =
      bind (forEach_update_draw [] (alive_when_tested w (horns w)) (time - lastTime w))
           (fun _ => bind (modify (set_lastTime time)) (fun _ => requestAnimationFrame_draw))
           (set_horns (alive_when_tested w (horns w))
              (set_clock_pos (List.length (horns w) + clock_pos w) (set_surface c w))).
Proof.
  intro Henv.
  destruct (resize_world w) as (c1 & resets & Hresets & Hresize & Hpainted & Hcw & Hch).
  exists (paint (OpClearRect 0 0 (N_to_number (canvas_width c1))
                             (N_to_number (canvas_height c1)) (transform c1)) c1),
         resets.
  split; [exact Hresets |].
  split.
  - cbn [painted paint transform]. rewrite Hpainted, Hcw, Hch.
    now rewrite <- app_assoc.
  - unfold draw. rewrite Henv.
    rewrite (bind_normal _ _ _ _ _ Hresize).
    erewrite bind_normal by reflexivity.
    erewrite bind_normal by reflexivity.
    rewrite (bind_normal _ _ _ _ _ (filter_shouldUpdate_run _ _)).
    erewrite bind_normal by reflexivity.
    erewrite bind_normal by reflexivity.
    reflexivity.
Qed.

(** A tick on which nothing throws, and the world it leaves. *)
Lemma draw_returns_fields (env : Env) (time : R) (w : World) :
  canvasContext env = JSCanvasContext ->
  (forall h, In h (alive_when_tested w (horns w)) -> img_status (image h) <> ImageBroken) ->
  exists w' resets m draws,
    draw env time w = (Normal tt, w') /\
    forallb is_reset_op resets = true /\
    forallb is_drawImage_op draws = true /\
    painted (surface w') =
      painted (surface w) ++ resets ++
      OpClearRect 0 0 (N_to_number (client_width (surface w)))
                  (N_to_number (client_height (surface w))) m
      :: draws /\
    horns w' = map (fun h => Horn_update h (time - lastTime w))
                   (alive_when_tested w (horns w)) /\
    lastTime w' = time /\
    frame_requests w' = S (frame_requests w) /\
    clock_src w' = clock_src w /\
    clock_pos w' = (List.length (horns w) + clock_pos w)%nat.
Proof.
  intros Henv Hok.
  destruct (draw_until_loop env time w Henv) as (c & resets & Hresets & Hpainted & ->).
  match goal with
  | |- context [bind (forEach_update_draw [] ?kept ?dt) _ ?ww] =>
      destruct (forEach_returns_fields dt kept [] ww Hok eq_refl)
        as (w3 & draws & Hrun & Hdraws & Hsf & Hhs & _ & Hsame)
  end.
  rewrite (bind_normal _ _ _ _ _ Hrun).
  unfold same_outside_loop in Hsame. world_fields_in Hsame. world_fields_in Hsf.
  destruct Hsame as (Hlt & Hfr & _ & Hcs & Hcp & _).
  eexists. exists resets, (transform c), draws.
  split; [reflexivity |].
  unfold requestAnimationFrame_draw, bind, modify. world_fields.
  split; [exact Hresets |]. split; [exact Hdraws |].
  split.
  { rewrite Hsf. cbn [painted paint_all]. rewrite Hpainted.
    now rewrite <- !app_assoc. }
  split; [exact Hhs |]. split; [reflexivity |].
  split; [now rewrite Hfr |]. split; assumption.
Qed.

(** X13: a tick never adds a horn and never plays a sound, whether it
    returns or throws.  It records the timestamp in [lastTime] and requests
    the next frame exactly when it returns; a tick that throws leaves
    [lastTime] as it was and requests no frame, so the loop stops there. *)
Theorem tick_never_adds_horns (env : Env) (time : R) (w : World) :
  (List.length (horns (snd (draw env time w))) <= List.length (horns w))%nat /\
  sounds (snd (draw env time w)) = sounds w /\
  (fst (draw env time w) = Normal tt ->
   lastTime (snd (draw env time w)) = time /\
   frame_requests (snd (draw env time w)) = S (frame_requests w)) /\
  (forall e, fst (draw env time w) = Throw e ->
   lastTime (snd (draw env time w)) = lastTime w /\
   frame_requests (snd (draw env time w)) = frame_requests w).
Proof.
  destruct (instanceof_CanvasRenderingContext2D (canvasContext env)) eqn:Hctx.
  - assert (Henv : canvasContext env = JSCanvasContext)
      by (destruct (canvasContext env); try discriminate Hctx; reflexivity).
    destruct (draw_until_loop env time w Henv) as (c & resets & _ & _ & ->).
    pose proof (alive_when_tested_length (horns w) w) as Hkept.
    match goal with
    | |- context [bind (forEach_update_draw [] ?kept ?dt) _ ?ww] =>
        destruct (forEach_any_outcome dt kept [] ww eq_refl) as (Hlen & Hsame);
        destruct (forEach_update_draw [] kept dt ww) as [[u | e] w3] eqn:Hrun
    end;
      unfold same_outside_loop in Hsame; world_fields_in Hsame; world_fields_in Hlen;
      destruct Hsame as (Hlt & Hfr & Hsn & _).
    + rewrite (bind_normal _ _ _ _ _ Hrun).
      unfold requestAnimationFrame_draw, bind, modify. world_fields.
      split; [rewrite Hlen; exact Hkept |].
      split; [exact Hsn |].
      split; [intros _; split; [reflexivity | now rewrite Hfr] | discriminate].
    + rewrite (bind_throw _ _ _ _ _ Hrun). world_fields.
      split; [rewrite Hlen; exact Hkept |].
      split; [exact Hsn |].
      split; [discriminate | intros e0 _; split; assumption].
  - destruct (resize_world w) as (c1 & resets & _ & Hresize & _).
    unfold draw. rewrite (bind_normal _ _ _ _ _ Hresize).
    destruct (canvasContext env); try discriminate Hctx;
      (split; [cbn; lia |]); (split; [reflexivity |]);
      (split; [discriminate | intros e0 _; split; reflexivity]).
Qed.

(** X15: when the closure holds no rendering context (getContext returned
    null), every tick throws a TypeError at [clearRect], before the horns are
    looked at: none is tested, removed, updated or drawn, [lastTime] is not
    set and no frame is requested. *)
Theorem tick_without_context_throws (env : Env) (time : R) (w : World) :
  instanceof_CanvasRenderingContext2D (canvasContext env) = false ->
  exists e,
    fst (draw env time w) = Throw e /\
    is_TypeError e = true /\
    horns (snd (draw env time w)) = horns w /\
    calls (snd (draw env time w)) = calls w /\
    clock_pos (snd (draw env time w)) = clock_pos w /\
    lastTime (snd (draw env time w)) = lastTime w /\
    frame_requests (snd (draw env time w)) = frame_requests w.
Proof.
  intro Hctx.
  destruct (resize_world w) as (c1 & resets & _ & Hresize & _).
  unfold draw. rewrite (bind_normal _ _ _ _ _ Hresize).
  destruct (canvasContext env); try discriminate Hctx;
    (eexists; split; [reflexivity |]; repeat split).
Qed.

Lemma tick_without_context_throws_sample :
  exists e,
    fst (draw null_context_env 16 (world_with [sample_horn sample_image])) = Throw e /\
    horns (snd (draw null_context_env 16 (world_with [sample_horn sample_image])))
      = [sample_horn sample_image].
Proof.
  destruct (tick_without_context_throws null_context_env 16
              (world_with [sample_horn sample_image]))
    as (e & Hthrow & _ & Hhorns & _).
  - reflexivity.
  - exists e. split; assumption.
Defined.

(** X17: motion does not depend on the frame rate.  While no horn expires
    and no image is broken, two ticks, at t1 and then at t2, leave every horn
    where the single tick at t2 would have put it: updated by
    t2 - lastTime. *)
Theorem two_ticks_move_like_one (env : Env) (t1 t2 : R) (w : World) :
  canvasContext env = JSCanvasContext ->
  (forall h, In h (horns w) -> img_status (image h) <> ImageBroken) ->
  (forall h k, In h (horns w) -> (k < 2 * List.length (horns w))%nat ->
               alive_at (upcoming_time w k) h = true) ->
  exists w1 w2 w2',
    draw env t1 w = (Normal tt, w1) /\
    draw env t2 w1 = (Normal tt, w2) /\
    draw env t2 w = (Normal tt, w2') /\
    horns w2 = horns w2' /\
    horns w2 = map (fun h => Horn_update h (t2 - lastTime w)) (horns w) /\
    lastTime w2 = t2.
Proof.
  intros Henv Himg Halive.
  assert (Hkept : alive_when_tested w (horns w) = horns w).
  { apply alive_when_tested_all. intros h k Hin Hk. apply Halive; [exact Hin | lia]. }
  assert (Hok : forall h, In h (alive_when_tested w (horns w)) ->
                          img_status (image h) <> ImageBroken)
    by (rewrite Hkept; exact Himg).
  destruct (draw_returns_fields env t1 w Henv Hok)
    as (w1 & _ & _ & _ & Hrun1 & _ & _ & _ & Hhs1 & Hlt1 & _ & Hcs1 & Hcp1).
  destruct (draw_returns_fields env t2 w Henv Hok)
    as (w2' & _ & _ & _ & Hrun2 & _ & _ & _ & Hhs2 & _).
  rewrite Hkept in Hhs1, Hhs2.
  assert (Hkept1 : alive_when_tested w1 (horns w1) = horns w1).
  { apply alive_when_tested_all. intros h' k Hin Hk.
    rewrite Hhs1 in Hin, Hk. rewrite length_map in Hk.
    apply in_map_iff in Hin. destruct Hin as (h & <- & Hin).
    change (alive_at (upcoming_time w1 k) h = true).
    unfold upcoming_time. rewrite Hcs1, Hcp1, Nat.add_assoc.
    apply (Halive h (k + List.length (horns w))%nat Hin). lia. }
  assert (Hok1 : forall h, In h (alive_when_tested w1 (horns w1)) ->
                           img_status (image h) <> ImageBroken).
  { rewrite Hkept1, Hhs1. intros h' Hin.
    apply in_map_iff in Hin. destruct Hin as (h & <- & Hin).
    now apply (Himg h). }
  destruct (draw_returns_fields env t2 w1 Henv Hok1)
    as (w2 & _ & _ & _ & Hrun3 & _ & _ & _ & Hhs3 & Hlt3 & _).
  rewrite Hkept1, Hhs1, Hlt1 in Hhs3.
  assert (Hmove : horns w2 = map (fun h => Horn_update h (t2 - lastTime w)) (horns w)).
  { rewrite Hhs3, map_map. apply map_ext. intro h. rewrite update_twice.
    f_equal. lra. }
  exists w1, w2, w2'.
  split; [exact Hrun1 |]. split; [exact Hrun3 |]. split; [exact Hrun2 |].
  split; [now rewrite Hmove, Hhs2 |].
  split; [exact Hmove | exact Hlt3].
Qed.

Lemma two_ticks_move_like_one_sample :
  exists w1 w2,
    draw sample_env 16 (world_with [sample_horn sample_image]) = (Normal tt, w1) /\
    draw sample_env 33 w1 = (Normal tt, w2) /\
    horns w2 = [Horn_update (sample_horn sample_image) (33 - 0)].
Proof.
  destruct (two_ticks_move_like_one sample_env 16 33
              (world_with [sample_horn sample_image]))
    as (w1 & w2 & w2' & Hrun1 & Hrun2 & _ & _ & Hhorns & _).
  - reflexivity.
  - intros h [<- | []]. cbn. discriminate.
  - intros h k [<- | []] _. apply alive_at_window. unfold upcoming_time; cbn. lra.
  - exists w1, w2. repeat split; assumption.
Defined.

(* ================================================================== *)
(** ** What a tick paints, and in which order it works *)

Lemma paint_then_paint_all (op : CanvasOp) (ops : list CanvasOp) (c : Context2D) :
  paint_all ops (paint op c) = paint_all (op :: ops) c.
Proof. unfold paint_all, paint; cbn. now rewrite <- app_assoc. Qed.

(** When [drawImage] does not throw, [draw] on a horn paints what
    [painted_by] says, under the matrix in force, and changes nothing else. *)
Lemma Horn_draw_paints (h : Horn) (w : World) :
  img_status (image h) <> ImageBroken ->
  Horn_draw h w =
  (Normal tt, set_surface (paint_all (painted_by (transform (surface w)) h) (surface w)) w).
Proof.
  intro Hok. unfold Horn_draw, ctx_drawImage, painted_by.
  destruct (img_status (image h)) eqn:Hst; [ | | contradiction].
  - rewrite paint_all_nil, set_surface_same.
    destruct w as [rs rp cs cp [cw ch lw lh t sv pt] sn fr hs lt cl]. reflexivity.
  - destruct (N.eqb (img_width (image h)) 0 || N.eqb (img_height (image h)) 0)%bool
      eqn:Hzero.
    + rewrite paint_all_nil, set_surface_same.
      destruct w as [rs rp cs cp [cw ch lw lh t sv pt] sn fr hs lt cl]. reflexivity.
    + reflexivity.
Qed.

(** The loop over the kept horns when no [draw] throws: each horn is
    updated, and what is painted for it is the horn as updated. *)
Lemma forEach_returns_exact (dt : R) (todo : list Horn) :
  forall (done : list Horn) (w : World),
  (forall h, In h todo -> img_status (image h) <> ImageBroken) ->
  horns w = done ++ todo ->
  exists w',
    forEach_update_draw done todo dt w = (Normal tt, w') /\
    surface w' =
      paint_all (flat_map (fun h => painted_by (transform (surface w)) (Horn_update h dt))
                          todo)
                (surface w) /\
    horns w' = done ++ map (fun h => Horn_update h dt) todo /\
    calls w' = calls w ++ update_draw_calls dt todo /\
    same_outside_loop w w'.
Proof.
  induction todo as [ | h rest IH]; intros done w Hok Hhorns.
  - exists w. cbn [forEach_update_draw map update_draw_calls flat_map].
    rewrite paint_all_nil, !app_nil_r. rewrite app_nil_r in Hhorns.
    repeat split; try assumption.
  - cbn [forEach_update_draw].
    erewrite bind_normal by reflexivity.
    erewrite bind_normal by reflexivity.
    erewrite bind_normal by reflexivity.
    assert (Hh : img_status (image (Horn_update h dt)) <> ImageBroken)
      by (apply (Hok h); left; reflexivity).
    match goal with
    | |- context [bind (Horn_draw ?hh) _ ?ww] =>
        rewrite (bind_normal _ _ _ _ _ (Horn_draw_paints hh ww Hh))
    end.
    match goal with
    | |- context [forEach_update_draw ?d rest dt ?ww] =>
        destruct (IH d ww) as (w' & Hrun & Hsf & Hhs & Hcalls & Hsame)
    end.
    + intros h0 Hin. apply Hok. right; exact Hin.
    + world_fields. now rewrite <- app_assoc.
    + world_fields_in Hsf. world_fields_in Hcalls.
      unfold same_outside_loop in *. world_fields_in Hsame.
      cbn [transform paint_all] in Hsf.
      exists w'.
      split; [exact Hrun |].
      split; [rewrite Hsf, paint_all_twice; reflexivity |].
      split; [rewrite Hhs; cbn [map]; now rewrite <- app_assoc |].
      split; [rewrite Hcalls, update_draw_calls_cons; now rewrite <- !app_assoc |].
      exact Hsame.
Qed.

(** [resizeCanvasToDisplaySize], with the canvas it leaves. *)
Lemma resize_exact (w : World) :
  exists resets,
    forallb is_reset_op resets = true /\
    resizeCanvasToDisplaySize w = (Normal tt, set_surface (fitted_surface w) w) /\
    painted (fitted_surface w) = painted (surface w) ++ resets /\
    canvas_width (fitted_surface w) = client_width (surface w) /\
    canvas_height (fitted_surface w) = client_height (surface w) /\
    (transform (surface w) = identity_matrix ->
     transform (fitted_surface w) = identity_matrix).
Proof.
  destruct w as [rs rp cs cp [cw ch lw lh t sv pt] sn fr hs lt cl].
  unfold fitted_surface, resizeCanvasToDisplaySize, bind, gets, assign_canvas_width,
    assign_canvas_height, modify_surface, modify, ret.
  cbn [surface canvas_width canvas_height client_width client_height painted transform].
  destruct (N.eqb_spec cw lw) as [Ew | Ew];
    cbn [surface canvas_width canvas_height client_width client_height set_surface
         painted transform snd];
    destruct (N.eqb_spec ch lh) as [Eh | Eh];
    cbn [surface canvas_width canvas_height client_width client_height set_surface
         painted transform snd].
  - exists []. rewrite app_nil_r. repeat split; auto.
  - exists [OpResetBitmap]. repeat split; auto.
  - exists [OpResetBitmap]. repeat split; auto.
  - exists [OpResetBitmap; OpResetBitmap].
    rewrite <- app_assoc. repeat split; auto.
Qed.

(** A tick on which nothing throws, with the canvas it leaves: the fitted
    canvas, cleared under the matrix in force, with the updated horns painted
    on it in order. *)
Lemma draw_returns_exact (env : Env) (time : R) (w : World) :
  canvasContext env = JSCanvasContext ->
  (forall h, In h (alive_when_tested w (horns w)) -> img_status (image h) <> ImageBroken) ->
  exists w',
    draw env time w = (Normal tt, w') /\
    surface w' =
      paint_all
        (OpClearRect 0 0 (N_to_number (canvas_width (fitted_surface w)))
                     (N_to_number (canvas_height (fitted_surface w)))
                     (transform (fitted_surface w))
         :: flat_map (fun h => painted_by (transform (fitted_surface w))
                                          (Horn_update h (time - lastTime w)))
                     (alive_when_tested w (horns w)))
        (fitted_surface w) /\
    horns w' = map (fun h => Horn_update h (time - lastTime w))
                   (alive_when_tested w (horns w)) /\
    calls w' = calls w ++ update_draw_calls (time - lastTime w)
                                            (alive_when_tested w (horns w)) /\
    lastTime w' = time /\
    frame_requests w' = S (frame_requests w).
Proof.
  intros Henv Hok.
  destruct (resize_exact w) as (resets & _ & Hresize & _).
  unfold draw. rewrite Henv.
  rewrite (bind_normal _ _ _ _ _ Hresize).
  erewrite bind_normal by reflexivity.
  erewrite bind_normal by reflexivity.
  rewrite (bind_normal _ _ _ _ _ (filter_shouldUpdate_run _ _)).
  erewrite bind_normal by reflexivity.
  erewrite bind_normal by reflexivity.
  world_fields.
  match goal with
  | |- context [bind (forEach_update_draw [] ?kept ?dt) _ ?ww] =>
      destruct (forEach_returns_exact dt kept [] ww Hok eq_refl)
        as (w3 & Hrun & Hsf & Hhs & Hcalls & Hsame)
  end.
  rewrite (bind_normal _ _ _ _ _ Hrun).
  unfold same_outside_loop in Hsame.
  world_fields_in Hsame. world_fields_in Hsf. world_fields_in Hcalls.
  cbn [transform paint] in Hsf. rewrite paint_then_paint_all in Hsf.
  destruct Hsame as (Hlt & Hfr & _).
  eexists. split; [reflexivity |].
  unfold requestAnimationFrame_draw, bind, modify. world_fields.
  split; [exact Hsf |]. split; [exact Hhs |]. split; [exact Hcalls |].
  split; [reflexivity | now rewrite Hfr].
Qed.

(** C3, as stated, fails: when the closure holds no rendering context
    (getContext returned null, so no horn could be built either), the tick
    throws a TypeError at [clearRect]; [lastTime] keeps its old value (0, the
    timestamp being 16) and the next frame is not requested. *)
Lemma tick_without_context_leaves_lastTime :
  horns (world_with []) = [] /\
  exists e,
    fst (draw null_context_env 16 (world_with [])) = Throw e /\
    is_TypeError e = true /\
    lastTime (snd (draw null_context_env 16 (world_with []))) = 0 /\
    frame_requests (snd (draw null_context_env 16 (world_with [])))
      = frame_requests (world_with []).
Proof. split; [reflexivity |]. eexists. repeat split. Qed.

(** C3, amended: on every tick on which nothing throws (the closure holds a
    rendering context and no [draw] of a kept horn throws, which holds when
    no kept horn has a broken image), [draw] first replaces [horns] by
    exactly the horns whose [shouldUpdate()] is true when the filter tests
    them (with the clock standing at one value t, those alive at t), then,
    for each kept horn in the order of the collection, calls [update(dt)] and
    right after it [draw()] on that same horn, as just updated: the calls
    come in update-draw pairs (with two or more horns this is not the
    sequence of a batched update pass followed by a batched draw pass), and
    what is painted after the clearing of the fitted canvas is, in the order
    of the collection, the image of each kept horn at its updated position
    and rotation.  At the end [draw] sets [lastTime] to the timestamp and
    requests the next frame.  The filter is the only thing that removes
    horns: the chat handler, the other writer of [horns], only pushes. *)
Theorem tick_prunes_then_updates_and_draws (env : Env) (time : R) (w : World) :
  canvasContext env = JSCanvasContext ->
  (forall h, In h (alive_when_tested w (horns w)) -> img_status (image h) <> ImageBroken) ->
  let survivors := alive_when_tested w (horns w) in
  let dt := time - lastTime w in
  exists w',
    draw env time w = (Normal tt, w') /\
    horns w' = map (fun h => Horn_update h dt) survivors /\
    (forall t,
        (forall k, (k < List.length (horns w))%nat -> upcoming_time w k = t) ->
        survivors = filter (alive_at t) (horns w)) /\
    calls w' = calls w ++ update_draw_calls dt survivors /\
    ((2 <= List.length survivors)%nat ->
     calls w' <> calls w ++ batched_calls dt survivors) /\
    painted (surface w') =
      painted (fitted_surface w) ++
      OpClearRect 0 0 (N_to_number (canvas_width (fitted_surface w)))
                  (N_to_number (canvas_height (fitted_surface w)))
                  (transform (fitted_surface w))
      :: flat_map (fun h => painted_by (transform (fitted_surface w)) (Horn_update h dt))
                  survivors /\
    lastTime w' = time /\
    frame_requests w' = S (frame_requests w) /\
    (forall userstate message w0, exists pushed,
        horns (snd (handleMessage env userstate message w0)) = horns w0 ++ pushed).
Proof.
  intros Henv Hok survivors dt.
  destruct (draw_returns_exact env time w Henv Hok)
    as (w' & Hrun & Hsf & Hhs & Hcalls & Hlt & Hfr).
  fold survivors dt in Hsf, Hhs, Hcalls.
  exists w'.
  split; [exact Hrun |].
  split; [exact Hhs |].
  split; [intros t Hclock; now apply alive_when_tested_fixed_clock |].
  split; [exact Hcalls |].
  split.
  - intro Hlen. rewrite Hcalls.
    destruct survivors as [ | h1 [ | h2 rest]]; cbn in Hlen; try lia.
    apply paired_calls_are_not_batched.
  - split; [rewrite Hsf; reflexivity |].
    split; [exact Hlt |].
    split; [exact Hfr |].
    intros userstate message w0. apply handleMessage_only_appends.
Qed.

Lemma tick_prunes_then_updates_and_draws_sample :
  exists w',
    draw sample_env 16 (world_with [sample_horn sample_image]) = (Normal tt, w') /\
    horns w' = [Horn_update (sample_horn sample_image) (16 - 0)] /\
    lastTime w' = 16 /\
    frame_requests w' = 2%nat.
Proof.
  assert (Halive : alive_when_tested (world_with [sample_horn sample_image])
                                     [sample_horn sample_image]
                   = [sample_horn sample_image]).
  { apply alive_when_tested_all. intros h k [<- | []] _.
    apply alive_at_window. unfold upcoming_time; cbn. lra. }
  destruct (tick_prunes_then_updates_and_draws sample_env 16
              (world_with [sample_horn sample_image]))
    as (w' & Hrun & Hhs & _ & _ & _ & _ & Hlt & Hfr & _).
  - reflexivity.
  - cbn [horns world_with]. rewrite Halive.
    intros h [<- | []]. cbn. discriminate.
  - cbn [horns world_with lastTime] in Hhs. rewrite Halive in Hhs.
    exists w'. repeat split; assumption.
Defined.

(** X16: on a tick on which nothing throws, entered with the identity
    transform in force, what is painted is, in this order: the resets of a
    canvas whose size changed, if any; one [clearRect] under the identity
    transform, from (0, 0) over the width and height of the canvas buffer,
    which by then are those the canvas is displayed at; then the images of
    the kept horns as updated, in the order of the collection.  The tick
    leaves the identity transform in force, so this holds of every tick as
    long as none throws: every frame is drawn on a canvas cleared in that
    same tick. *)
Theorem tick_clears_canvas_before_drawing (env : Env) (time : R) (w : World) :
  canvasContext env = JSCanvasContext ->
  (forall h, In h (alive_when_tested w (horns w)) -> img_status (image h) <> ImageBroken) ->
  transform (surface w) = identity_matrix ->
  exists resets,
    forallb is_reset_op resets = true /\
    painted (surface (snd (draw env time w))) =
      painted (surface w) ++ resets ++
      OpClearRect 0 0 (N_to_number (client_width (surface w)))
                  (N_to_number (client_height (surface w))) identity_matrix
      :: flat_map (fun h => painted_by identity_matrix
                                       (Horn_update h (time - lastTime w)))
                  (alive_when_tested w (horns w)) /\
    canvas_width (surface (snd (draw env time w))) = client_width (surface w) /\
    canvas_height (surface (snd (draw env time w))) = client_height (surface w) /\
    transform (surface (snd (draw env time w))) = identity_matrix.
Proof.
  intros Henv Hok Hid.
  destruct (draw_returns_exact env time w Henv Hok) as (w' & -> & Hsf & _).
  destruct (resize_exact w) as (resets & Hresets & _ & Hpainted & Hcw & Hch & Htr).
  specialize (Htr Hid).
  exists resets. cbn [snd]. rewrite Hsf. cbn [painted paint_all canvas_width
    canvas_height transform].
  rewrite Hpainted, Hcw, Hch, Htr, <- app_assoc.
  repeat split; assumption.
Qed.

Lemma tick_clears_canvas_before_drawing_sample :
  exists resets,
    painted (surface (snd (draw sample_env 16 (world_with [sample_horn sample_image])))) =
      resets ++
      OpClearRect 0 0 (N_to_number 800) (N_to_number 600) identity_matrix
      :: painted_by identity_matrix (Horn_update (sample_horn sample_image) (16 - 0)).
Proof.
  assert (Halive : alive_when_tested (world_with [sample_horn sample_image])
                                     [sample_horn sample_image]
                   = [sample_horn sample_image]).
  { apply alive_when_tested_all. intros h k [<- | []] _.
    apply alive_at_window. unfold upcoming_time; cbn. lra. }
  destruct (tick_clears_canvas_before_drawing sample_env 16
              (world_with [sample_horn sample_image]))
    as (resets & _ & Hpainted & _).
  - reflexivity.
  - cbn [horns world_with]. rewrite Halive.
    intros h [<- | []]. cbn. discriminate.
  - reflexivity.
  - exists resets. rewrite Hpainted.
    cbn [horns world_with lastTime]. rewrite Halive.
    cbn [flat_map]. rewrite app_nil_r. reflexivity.
Defined.
